(** * HexagonGrid: cell-state generation and per-frame animation engine

    A shallow embedding of [src/app/components/HexagonGrid.tsx], and, in
    module [Part000], of its earlier revision [src/unnamed/part_000].

    Numbers.  The component computes with JavaScript numbers.  They are
    modelled as the real numbers [R] of the Standard Library: every
    arithmetic operation is the exact one, [Math.sqrt], [Math.sin],
    [Math.cos] and [Math.PI] are [sqrt], [sin], [cos] and [PI], and
    [Math.ceil]/[Math.floor] are [Zceil]/[Zfloor].  Rounding, infinities and
    NaN are outside the model.  Loop counters and array indices, which the
    source only ever holds integers in, are [Z].

    Randomness.  [Math.random()] is a draw from a stream of reals; the
    stream is threaded through the code by a small state monad [Rand], and a
    stream is [validRng] when every draw lies in [0, 1), as the language
    guarantees.

    Drawing.  The canvas calls issued during a frame are collected in a list
    of [DrawCall]s, in the order the source issues them. *)

From Stdlib Require Import Reals Lra Lia ZArith List Sorted.
From stdpp Require Import base gmap list list_numbers strings.
From Stdlib Require HexString.

Open Scope R_scope.

(** ** Comparisons of numbers as booleans *)

Definition Rltb (a b : R) : bool := if Rlt_dec a b then true else false.
Definition Rleb (a b : R) : bool := if Rle_dec a b then true else false.
Definition Rgtb (a b : R) : bool := Rltb b a.
Definition Rgeb (a b : R) : bool := Rleb b a.

Notation "a <? b" := (Rltb a b) : R_scope.
Notation "a <=? b" := (Rleb a b) : R_scope.
Notation "a >? b" := (Rgtb a b) : R_scope.
Notation "a >=? b" := (Rgeb a b) : R_scope.

(** ** Data model *)

(** The [color] field of a cell: ['red' | 'green' | null]. *)
Inductive Color := red | green.

(** [interface Hexagon]. *)
Record Hexagon := mkHexagon {
  x : R;
  y : R;
  shouldHover : bool;
  shouldOscillate : bool;
  isStatic : bool;
  opacity : R;
  oscillationRate : R;
  oscillationDirection : R;
  hoverOpacity : R;
  hoverTarget : R;
  color : option Color
}.

(** The numeric props of the component ([HexagonGridProps]); the colour
    strings only reach the fill style of the draw calls. *)
Record Props := mkProps {
  hexSize : R;
  staticHexChance : R;
  panSpeed : R;
  hoverDelay : R
}.

(** The default values of the props in the signature of [HexagonGrid]. *)
Definition defaultProps : Props :=
  {| hexSize := 30; staticHexChance := 0.01; panSpeed := 0.15; hoverDelay := 0.3 |}.

(** ** Geometry *)

(** [getHexagonVertices(cx, cy, size)]: the six vertices, [i = 0 .. 5]. *)
Definition getHexagonVertices (cx cy size : R) : list (R * R) :=
  map (fun i : nat =>
         let angle := (PI / 3) * INR i - PI / 6 in
         (cx + size * cos angle, cy + size * sin angle))
      (seq 0 6).

(** [isPointInHexagon(px, py, cx, cy, size)]. *)
Definition isPointInHexagon (px py cx cy size : R) : bool :=
  let dx := Rabs (px - cx) in
  let dy := Rabs (py - cy) in
  if (dx >? size * sqrt 3 / 2) || (dy >? size) then false
  else dy <=? size * (1 - dx / (size * sqrt 3)).

(** The containment test in the words of the specification: reject when
    [|dx| > size*sqrt 3/2] or [|dy| > size], otherwise accept iff
    [|dy| <= size*(1 - |dx|/(size*sqrt 3))]. *)
Definition boundingDiamondSpec (px py cx cy size : R) : Prop :=
  ~ (Rabs (px - cx) > size * sqrt 3 / 2 \/ Rabs (py - cy) > size) /\
  Rabs (py - cy) <= size * (1 - Rabs (px - cx) / (size * sqrt 3)).

(** ** Wave function *)

(** The wave sampled at a vertex [(vx, vy)]: the expression computed
    in [drawHexagon] and again in [animate]:
    [rawWave = (Math.sin(waveTime + vx*0.01 + vy*0.01) + 1) / 2],
    [wave = Math.pow(rawWave, 4)]. *)
Definition rawWave (waveTime vx vy : R) : R :=
  (sin (waveTime + vx * 0.01 + vy * 0.01) + 1) / 2.

Definition wave (waveTime vx vy : R) : R := (rawWave waveTime vx vy) ^ 4.


(** ** Randomness: [Math.random()] *)

(** The draws still to come; [g 0] is the next one. *)
Definition Rng := nat -> R.

(** Every draw lies in [0, 1). *)
Definition validRng (g : Rng) : Prop := forall n : nat, 0 <= g n < 1.

(** A computation that consumes draws. *)
Definition Rand (A : Type) : Type := Rng -> A * Rng.

Definition ret {A : Type} (a : A) : Rand A := fun g => (a, g).

Definition bind {A B : Type} (m : Rand A) (k : A -> Rand B) : Rand B :=
  fun g => let (a, g') := m g in k a g'.

Notation "'let*' v ':=' m 'in' k" := (bind m (fun v => k))
  (at level 10, v name, m at level 100, k at level 200).

(** [Math.random()]. *)
Definition random : Rand R := fun g => (g 0%nat, fun n => g (S n)).

(** A loop whose body may draw, run over the values of its counter. *)
Fixpoint mapM {A B : Type} (f : A -> Rand B) (l : list A) : Rand (list B) :=
  match l with
  | [] => ret []
  | a :: l' => let* b := f a in let* bs := mapM f l' in ret (b :: bs)
  end.

Fixpoint foldM {A S : Type} (f : A -> S -> Rand S) (l : list A) (s : S) : Rand S :=
  match l with
  | [] => ret s
  | a :: l' => let* s' := f a s in foldM f l' s'
  end.

(** ** Field updates of a cell *)

Definition setX (v : R) (h : Hexagon) : Hexagon :=
  mkHexagon v (y h) (shouldHover h) (shouldOscillate h) (isStatic h) (opacity h)
    (oscillationRate h) (oscillationDirection h) (hoverOpacity h) (hoverTarget h)
    (color h).

Definition setY (v : R) (h : Hexagon) : Hexagon :=
  mkHexagon (x h) v (shouldHover h) (shouldOscillate h) (isStatic h) (opacity h)
    (oscillationRate h) (oscillationDirection h) (hoverOpacity h) (hoverTarget h)
    (color h).

Definition setOpacity (v : R) (h : Hexagon) : Hexagon :=
  mkHexagon (x h) (y h) (shouldHover h) (shouldOscillate h) (isStatic h) v
    (oscillationRate h) (oscillationDirection h) (hoverOpacity h) (hoverTarget h)
    (color h).

Definition setOscillationDirection (v : R) (h : Hexagon) : Hexagon :=
  mkHexagon (x h) (y h) (shouldHover h) (shouldOscillate h) (isStatic h) (opacity h)
    (oscillationRate h) v (hoverOpacity h) (hoverTarget h) (color h).

Definition setHoverTarget (v : R) (h : Hexagon) : Hexagon :=
  mkHexagon (x h) (y h) (shouldHover h) (shouldOscillate h) (isStatic h) (opacity h)
    (oscillationRate h) (oscillationDirection h) (hoverOpacity h) v (color h).

Definition setHoverOpacity (v : R) (h : Hexagon) : Hexagon :=
  mkHexagon (x h) (y h) (shouldHover h) (shouldOscillate h) (isStatic h) (opacity h)
    (oscillationRate h) (oscillationDirection h) v (hoverTarget h) (color h).

(** The three assignments of the highlight pass:
    [hex.color = color; hex.shouldOscillate = true; hex.opacity = o]. *)
Definition tint (c : Color) (o : R) (h : Hexagon) : Hexagon :=
  mkHexagon (x h) (y h) (shouldHover h) true (isStatic h) o
    (oscillationRate h) (oscillationDirection h) (hoverOpacity h) (hoverTarget h)
    (Some c).

(** ** Draw calls *)

Inductive DrawCall :=
| ClearCanvas (width height : R)
    (* fillStyle = backgroundColor; fillRect(0, 0, width, height) *)
| FillStar (sx sy size brightness : R)
    (* drawStar: a dot of radius [size] at (sx, sy), alpha [brightness] *)
| FillHexagon (vertices : list (R * R)) (c : option Color) (alpha : R).
    (* drawHexagon: the closed path through [vertices], filled with the
       highlight colour [c] (or the default colour) at alpha [alpha] *)

(** [drawStar(ctx, x, y, size, wave)]. *)
Definition drawStar (sx sy size w : R) : list DrawCall :=
  let brightness := 0.06 + w * 0.2 in
  [FillStar sx sy size brightness].

(** [drawHexagon(ctx, cx, cy, size, opacity, waveTime, color)]. *)
Definition drawHexagon (cx cy size alpha waveTime : R) (c : option Color)
  : list DrawCall :=
  if alpha <=? 0.01 then []
  else
    let vertices := getHexagonVertices cx cy size in
    let waveVertices :=
      map (fun vertex : R * R =>
             let w := wave waveTime (fst vertex) (snd vertex) in
             let yOffset := - (w - 0.5) * 12 in
             (fst vertex, snd vertex + yOffset))
          vertices in
    [FillHexagon waveVertices c alpha].

(** ** The state owned by one mounted component *)

Record Engine := mkEngine {
  hexagonsRef : list Hexagon;
  offsetRef : R * R;
  mouseRef : R * R;
  waveTimeRef : R;
  canvasSize : R * R;   (* (width, height) *)
  lastTime : R
}.

Section Component.

Variable P : Props.

Definition hexWidth : R := hexSize P * sqrt 3.
Definition hexHeight : R := hexSize P * 2.
Definition verticalSpacing : R := hexHeight * 0.75.

(** *** Grid generation: [initializeGrid] *)

(** The body of the two nested loops: one cell (lines 75-105). *)
Definition newHexagon (row col : Z) : Rand Hexagon :=
  let cellX := IZR col * hexWidth + IZR (Z.rem row 2) * (hexWidth / 2) in
  let cellY := IZR row * verticalSpacing in
  let* r1 := random in
  let hover := r1 <? staticHexChance P in
  let* r2 := random in
  let oscillate := r2 <? 0.002 in
  let* static := (if oscillate then ret false
                  else let* r3 := random in ret (r3 <? 0.002)) in
  let* o := (if oscillate then let* r4 := random in ret (0.05 + r4 * 0.35)
             else if static then let* r4 := random in ret (0.05 + r4 * 0.35)
             else ret 0) in
  let* r5 := random in
  let* r6 := random in
  ret {| x := cellX;
         y := cellY;
         shouldHover := hover;
         shouldOscillate := oscillate;
         isStatic := static;
         opacity := o;
         oscillationRate := 0.001 + r5 * 0.0012;
         oscillationDirection := if r6 >? 0.5 then 1 else -1;
         hoverOpacity := 0;
         hoverTarget := 0;
         color := None |}.

(** The values of the counter of [for (let i = -1; i < n; i++)]:
    [-1, 0, ..., n - 1]. *)
Definition loopRange (n : Z) : list Z := seqZ (-1) (n + 1).

(** [for (let col = -1; col < cols; col++)]. *)
Definition gridRow (cols row : Z) : Rand (list Hexagon) :=
  mapM (newHexagon row) (loopRange cols).

(** [for (let row = -1; row < rows; row++)], pushing row after row. *)
Definition baseGrid (rows cols : Z) : Rand (list Hexagon) :=
  let* rs := mapM (gridRow cols) (loopRange rows) in
  ret (concat rs).

(** The highlight pass works on the array and on the set [colored]. *)
Definition Tinted : Type := list Hexagon * gset Z.

(** The body of the inner loop over [j] (lines 130-139).  The array is
    only written after the range check. *)
Definition highlightNeighbor (totalHexagons idx : Z) (c : Color) (j : Z)
    (st : Tinted) : Rand Tinted :=
  let (hexagons, colored) := st in
  let* r := random in
  let direction := if r >? 0.5 then 1%Z else (-1)%Z in
  let offset := ((j + 1) * direction)%Z in
  let neighborIdx := (idx + offset)%Z in
  if (0 <=? neighborIdx)%Z && (neighborIdx <? totalHexagons)%Z
     && negb (bool_decide (neighborIdx ∈ colored))
  then
    let* ro := random in
    ret (alter (tint c (0.05 + ro * 0.35)) (Z.to_nat neighborIdx) hexagons,
         {[neighborIdx]} ∪ colored)
  else ret st.

(** The body of the loop over [i] (lines 115-140).  [idx] is in range for
    every valid draw (lemma [seed_index_in_range]); the source would throw on
    [hexagons[idx].color = ...] otherwise. *)
Definition highlightSeed (totalHexagons : Z) (st : Tinted) : Rand Tinted :=
  let (hexagons, colored) := st in
  let* r := random in
  let idx := Zfloor (r * IZR totalHexagons) in
  if bool_decide (idx ∈ colored) then ret st
  else
    let* rc := random in
    let c := if rc >? 0.5 then red else green in
    let* ro := random in
    let hexagons1 := alter (tint c (0.05 + ro * 0.35)) (Z.to_nat idx) hexagons in
    let colored1 := {[idx]} ∪ colored in
    let* rn := random in
    let neighborsToAdd := if rn >? 0.5 then 1%Z else 2%Z in
    foldM (highlightNeighbor totalHexagons idx c) (seqZ 0 neighborsToAdd)
          (hexagons1, colored1).

(** [initializeGrid(width, height)]; the result is what the source stores in
    [hexagonsRef.current]. *)
Definition initializeGrid (width height : R) : Rand (list Hexagon) :=
  let cols := (Zceil (width / hexWidth) + 2)%Z in
  let rows := (Zceil (height / verticalSpacing) + 2)%Z in
  let* hexagons := baseGrid rows cols in
  let totalHexagons := Z.of_nat (length hexagons) in
  let coloredCount := Zfloor (IZR totalHexagons * 0.01) in
  let* st := foldM (fun _ : Z => highlightSeed totalHexagons) (seqZ 0 coloredCount)
                   (hexagons, ∅) in
  ret (fst st).

(** *** Per-frame protocol: [animate] *)

(** The re-roll of a wrapped cell (lines 305-319, and again 324-338). *)
Definition reroll (h : Hexagon) : Rand Hexagon :=
  let* r1 := random in
  let oscillate := r1 <? 0.002 in
  let* static := (if oscillate then ret false
                  else let* r2 := random in ret (r2 <? 0.002)) in
  let* o := (if oscillate then let* r3 := random in ret (0.05 + r3 * 0.35)
             else if static then let* r3 := random in ret (0.05 + r3 * 0.35)
             else ret 0) in
  let* r4 := random in
  let* r5 := random in
  let* r6 := random in
  ret {| x := x h;
         y := y h;
         shouldHover := r6 <? staticHexChance P;
         shouldOscillate := oscillate;
         isStatic := static;
         opacity := o;
         oscillationRate := 0.001 + r4 * 0.0012;
         oscillationDirection := if r5 >? 0.5 then 1 else -1;
         hoverOpacity := 0;
         hoverTarget := 0;
         color := None |}.

(** The two wrap tests; both use the screen position computed on entry. *)
Definition wrapsX (off : R * R) (h : Hexagon) : bool :=
  (x h - fst off) <? - hexWidth * 3.

Definition wrapsY (off : R * R) (h : Hexagon) : bool :=
  (y h - snd off) <? - hexHeight * 3.

(** The distance a wrapped cell is moved along each axis. *)
Definition wrapSpanX (size : R * R) : R :=
  hexWidth * (IZR (Zceil (fst size / hexWidth)) + 4).

Definition wrapSpanY (size : R * R) : R :=
  verticalSpacing * (IZR (Zceil (snd size / verticalSpacing)) + 4).

(** The body of the first [forEach] (lines 298-339). *)
Definition wrapHex (off size : R * R) (h : Hexagon) : Rand Hexagon :=
  let* h1 := (if wrapsX off h then reroll (setX (x h + wrapSpanX size) h)
              else ret h) in
  if wrapsY off h then reroll (setY (y h1 + wrapSpanY size) h1)
  else ret h1.

(** The oscillation step (lines 368-379). *)
Definition updateOscillation (deltaTime : R) (h : Hexagon) : Hexagon :=
  if shouldOscillate h then
    let h1 :=
      setOpacity
        (opacity h + oscillationRate h * oscillationDirection h * deltaTime * 60) h in
    if opacity h1 >=? 0.4 then setOscillationDirection (-1) (setOpacity 0.4 h1)
    else if opacity h1 <=? 0.05 then setOscillationDirection 1 (setOpacity 0.05 h1)
    else h1
  else h.

(** [hoverDelay * (isHovered ? 0.5 : 1)]. *)
Definition hoverSpeed (isHovered : bool) : R :=
  hoverDelay P * (if isHovered then 0.5 else 1).

(** The hover step (lines 382-394). *)
Definition updateHover (mouse : R * R) (screenX screenY deltaTime : R)
    (h : Hexagon) : Hexagon :=
  if shouldHover h then
    let isHovered := isPointInHexagon (fst mouse) (snd mouse) screenX screenY (hexSize P) in
    let h1 := setHoverTarget (if isHovered then 0.8 else 0) h in
    setHoverOpacity
      (hoverOpacity h1
       + (hoverTarget h1 - hoverOpacity h1) * hoverSpeed isHovered * deltaTime * 60)
      h1
  else h.

(** The skip test of the draw pass (lines 348-353). *)
Definition offScreen (size : R * R) (screenX screenY : R) : bool :=
  (screenX <? - hexWidth) || (screenX >? fst size + hexWidth)
  || (screenY <? - hexHeight) || (screenY >? snd size + hexHeight).

(** The stars at the six vertices (lines 358-365). *)
Definition drawStars (waveTime screenX screenY : R) : list DrawCall :=
  flat_map (fun vertex : R * R =>
              let w := wave waveTime (fst vertex) (snd vertex) in
              let yOffset := - (w - 0.5) * 12 in
              drawStar (fst vertex) (snd vertex + yOffset) 1.5 w)
           (getHexagonVertices screenX screenY (hexSize P)).

(** The body of the second [forEach] (lines 344-398): the cell after the
    frame and the draw calls issued for it. *)
Definition drawHex (off mouse size : R * R) (waveTime deltaTime : R)
    (h : Hexagon) : Hexagon * list DrawCall :=
  let screenX := x h - fst off in
  let screenY := y h - snd off in
  if offScreen size screenX screenY then (h, [])
  else
    let stars := drawStars waveTime screenX screenY in
    let h1 := updateOscillation deltaTime h in
    let h2 := updateHover mouse screenX screenY deltaTime h1 in
    let finalOpacity := Rmax (opacity h2) (hoverOpacity h2) in
    (h2, stars ++ drawHexagon screenX screenY (hexSize P) finalOpacity waveTime (color h2)).

(** What one frame does to one cell: first pass, then second pass. *)
Definition frameHex (off mouse size : R * R) (waveTime deltaTime : R)
    (h : Hexagon) : Rand (Hexagon * list DrawCall) :=
  let* h1 := wrapHex off size h in
  ret (drawHex off mouse size waveTime deltaTime h1).

(** [animate(currentTime)]: one frame.  The first [forEach] runs over the
    whole array before the second one starts. *)
Definition animate (currentTime : R) (e : Engine) : Rand (Engine * list DrawCall) :=
  let deltaTime := (currentTime - lastTime e) / 1000 in
  let off := (fst (offsetRef e) + panSpeed P * deltaTime * 60,
              snd (offsetRef e) + panSpeed P * deltaTime * 60) in
  let waveTime := waveTimeRef e + deltaTime * 0.5 in
  let size := canvasSize e in
  let* wrapped := mapM (wrapHex off size) (hexagonsRef e) in
  let drawn := map (drawHex off (mouseRef e) size waveTime deltaTime) wrapped in
  ret ({| hexagonsRef := map fst drawn;
          offsetRef := off;
          mouseRef := mouseRef e;
          waveTimeRef := waveTime;
          canvasSize := size;
          lastTime := currentTime |},
       ClearCanvas (fst size) (snd size) :: flat_map snd drawn).

(** *** Events *)

(** [handleMouseMove], with the pointer already relative to the canvas. *)
Definition handleMouseMove (px py : R) (e : Engine) : Engine :=
  mkEngine (hexagonsRef e) (offsetRef e) (px, py) (waveTimeRef e) (canvasSize e)
    (lastTime e).

(** [handleMouseLeave]. *)
Definition handleMouseLeave (e : Engine) : Engine :=
  mkEngine (hexagonsRef e) (offsetRef e) (-1000, -1000) (waveTimeRef e)
    (canvasSize e) (lastTime e).

(** [updateCanvasSize]: the new size and a freshly generated grid. *)
Definition updateCanvasSize (newWidth newHeight : R) (e : Engine) : Rand Engine :=
  let* hexagons := initializeGrid newWidth newHeight in
  ret (mkEngine hexagons (offsetRef e) (mouseRef e) (waveTimeRef e)
         (newWidth, newHeight) (lastTime e)).

(** *** Runs of several frames *)

(** One cell through the oscillation steps of the frames with the given
    delta times, oldest first. *)
Definition oscillateFrames (deltaTimes : list R) (h : Hexagon) : Hexagon :=
  fold_left (fun h' dt => updateOscillation dt h') deltaTimes h.

(** What the hover step of one frame reads besides the cell. *)
Record HoverFrame := mkHoverFrame {
  hfMouse : R * R;
  hfScreenX : R;
  hfScreenY : R;
  hfDeltaTime : R
}.

Definition hoverFrame (f : HoverFrame) (h : Hexagon) : Hexagon :=
  updateHover (hfMouse f) (hfScreenX f) (hfScreenY f) (hfDeltaTime f) h.

(** The hover opacity of a cell after each of the given frames, oldest
    first. *)
Fixpoint hoverTrace (fs : list HoverFrame) (h : Hexagon) : list R :=
  match fs with
  | [] => []
  | f :: fs' => let h' := hoverFrame f h in hoverOpacity h' :: hoverTrace fs' h'
  end.

(** The engine through the frames at the given times, oldest first. *)
Fixpoint animateAll (times : list R) (e : Engine) : Rand (Engine * list DrawCall) :=
  match times with
  | [] => ret (e, [])
  | t :: ts =>
      let* r := animate t e in
      let* r' := animateAll ts (fst r) in
      ret (fst r', snd r ++ snd r')
  end.

End Component.

(** ** Vocabulary of the statements *)

(** *** Draws *)

(** Every draw of the stream satisfies [D]. *)
Definition draws (D : R -> Prop) (g : Rng) : Prop := forall n : nat, D (g n).

(** On every stream whose draws satisfy [D], the computation [m] returns a
    value satisfying [Q] (and leaves such a stream). *)
Definition post {A : Type} (D : R -> Prop) (m : Rand A) (Q : A -> Prop) : Prop :=
  forall g : Rng, draws D g -> Q (fst (m g)) /\ draws D (snd (m g)).

(** What [Math.random()] guarantees. *)
Definition unitDraw (r : R) : Prop := 0 <= r < 1.

(** No constraint at all. *)
Definition anyDraw (r : R) : Prop := True.

(** Draws that miss both 0.2% chances. *)
Definition dullDraw (r : R) : Prop := 0.002 <= r < 1.

(** The draw 0. *)
Definition zeroDraw (r : R) : Prop := r = 0.

(** *** Cells *)

(** The oscillation band of the source: 0.05 to 0.4. *)
Definition inBand (o : R) : Prop := 0.05 <= o <= 0.4.

(** The opacity the oscillation step computes before it tests the
    boundaries. *)
Definition rawOpacity (deltaTime : R) (h : Hexagon) : R :=
  opacity h + oscillationRate h * oscillationDirection h * deltaTime * 60.

(** The opacity of a cell is in [0, 0.4], and in the band when the cell
    oscillates. *)
Definition opacityOK (h : Hexagon) : Prop :=
  0 <= opacity h <= 0.4 /\ (shouldOscillate h = true -> inBand (opacity h)).

(** The behaviour profile Inert: no hover, no oscillation, not static, no
    highlight colour. *)
Definition isInert (h : Hexagon) : Prop :=
  shouldHover h = false /\ shouldOscillate h = false /\ isStatic h = false /\
  color h = None.

(** What every cell of the first pass of [initializeGrid] looks like. *)
Definition freshCell (P : Props) (h : Hexagon) : Prop :=
  color h = None /\ hoverOpacity h = 0 /\ hoverTarget h = 0 /\
  (shouldHover h = true -> 0 < staticHexChance P) /\
  ((shouldOscillate h = false /\ isStatic h = false /\ opacity h = 0) \/
   (xorb (shouldOscillate h) (isStatic h) = true /\ 0.05 <= opacity h < 0.4)).

(** The world position of a cell. *)
Definition position (h : Hexagon) : R * R := (x h, y h).

(** *** Grid *)

(** The number of columns [initializeGrid] lays out for a viewport of the
    given width: the length of the range of its [col] loop. *)
Definition generatedColumns (P : Props) (width : R) : nat :=
  length (loopRange (Zceil (width / hexWidth P) + 2)).

(** The centre of the tiling slot in row [row] and column [col]. *)
Definition slotCentre (P : Props) (row col : Z) : R * R :=
  (IZR col * hexWidth P + IZR (Z.rem row 2) * (hexWidth P / 2),
   IZR row * verticalSpacing P).

(** The slots of the rows [-1 .. rows - 1] and columns [-1 .. cols - 1], row
    after row. *)
Definition slotCentres (P : Props) (rows cols : Z) : list (R * R) :=
  flat_map (fun row => map (slotCentre P row) (loopRange cols)) (loopRange rows).

(** *** Hover *)

(** The pointer is inside the cell in frame [f]. *)
Definition held (P : Props) (f : HoverFrame) : Prop :=
  isPointInHexagon (fst (hfMouse f)) (snd (hfMouse f)) (hfScreenX f) (hfScreenY f)
    (hexSize P) = true.

(** The fraction of the remaining distance covered in frame [f] while the
    pointer is inside. *)
Definition easeFactor (P : Props) (f : HoverFrame) : R :=
  hoverSpeed P true * hfDeltaTime f * 60.

(** The part of the initial distance left after the frames [fs]. *)
Definition gapFactor (P : Props) (fs : list HoverFrame) : R :=
  fold_right (fun f acc => (1 - easeFactor P f) * acc) 1 fs.

(** *** Concrete inputs *)

(** The props of the end-to-end scenario: cell size 30, special-behaviour
    probability 0. *)
Definition zeroChanceProps : Props :=
  {| hexSize := 30; staticHexChance := 0; panSpeed := 0.15; hoverDelay := 0.3 |}.

(** An oscillating cell in the middle of the band. *)
Definition sampleOscillating : Hexagon :=
  mkHexagon 0 0 false true false 0.2 0.001 1 0 0 None.

(** A hover-enabled cell at (100, 100), not yet hovered. *)
Definition sampleHover : Hexagon :=
  mkHexagon 100 100 true false false 0 0.001 1 0 0 None.

(** A frame with the pointer at the centre of [sampleHover], no pan. *)
Definition sampleHeldFrame (dt : R) : HoverFrame :=
  mkHoverFrame (100, 100) 100 100 dt.

(** The cell generated in row 0, column -1, for the default props. *)
Definition sampleEdgeCell : Hexagon :=
  mkHexagon (- hexWidth defaultProps) 0 false false false 0 0.001 1 0 0 None.

(** A cell 100 above the canvas: past the draw margin, short of the wrap
    threshold. *)
Definition sampleAbove : Hexagon :=
  mkHexagon 0 (-100) true true false 0.2 0.001 1 0 0 None.

(** A coloured, hovered cell 200 above the canvas: past the wrap threshold. *)
Definition sampleFarAbove : Hexagon :=
  mkHexagon 0 (-200) true true false 0.2 0.001 1 0.5 0.8 (Some red).

Definition sampleEngine : Engine :=
  mkEngine [sampleFarAbove; sampleAbove] (0, 0) (-1000, -1000) 0 (300, 300) 0.

(** *** Tiling *)

(** Corner [i] of the hexagon drawn on the slot in row [row] and column
    [col] (corners numbered as [getHexagonVertices] returns them). *)
Definition corner (P : Props) (row col : Z) (i : nat) : R * R :=
  nth i (getHexagonVertices (fst (slotCentre P row col)) (snd (slotCentre P row col))
           (hexSize P))
      (0, 0).

(** The squared distance of a point from a centre. *)
Definition dist2 (px py cx cy : R) : R := (px - cx) ^ 2 + (py - cy) ^ 2.

(** *** Fill styles *)

(** [n.toString(16)] for an integer [n]: lower-case digits, no prefix. *)
Definition toString16 (n : Z) : string :=
  match n with
  | Z0 => "0"
  | Zpos p => HexString.Raw.of_pos p ""
  | Zneg p => "-" +:+ HexString.Raw.of_pos p ""
  end.

(** [s.padStart(2, '0')]. *)
Definition padStart2 (s : string) : string :=
  match String.length s with
  | O => "00"
  | S O => "0" +:+ s
  | _ => s
  end.

(** The alpha digits appended to a hex colour in [drawHexagon] and
    [drawStar]: [Math.floor(opacity * 255).toString(16).padStart(2, '0')]. *)
Definition alphaSuffix (alpha : R) : string :=
  padStart2 (toString16 (Zfloor (alpha * 255))).

(** The base colour [drawHexagon] picks for a coloured cell (lines 178-182). *)
Definition highlightColor (c : Color) : string :=
  match c with
  | red => "#ef4444"
  | green => "#22c55e"
  end.

(** The fill style of a coloured cell: its base colour does not contain
    ['rgb'], so [drawHexagon] takes the second branch of lines 184-186 and
    appends the alpha digits. *)
Definition highlightFillStyle (c : Color) (alpha : R) : string :=
  highlightColor c +:+ alphaSuffix alpha.

(** Reading hex digits back, most significant first. *)
Definition parseHex (s : string) : N := HexString.Raw.to_N s 0%N.

(** *** Invariants of cells *)

(** The oscillation rate is in the range it is drawn from and the
    direction is one of the two the code ever assigns. *)
Definition motionOK (h : Hexagon) : Prop :=
  0.001 <= oscillationRate h < 0.0022 /\
  (oscillationDirection h = 1 \/ oscillationDirection h = -1).

(** A coloured cell oscillates. *)
Definition highlightOK (h : Hexagon) : Prop :=
  color h <> None -> shouldOscillate h = true.

(** A cell that cannot be hovered and shows no hover. *)
Definition hoverOff (h : Hexagon) : Prop :=
  shouldHover h = false /\ hoverOpacity h = 0 /\ hoverTarget h = 0.

(** The number of coloured cells of a grid. *)
Definition colouredCells (hs : list Hexagon) : nat :=
  length (List.filter (fun h => match color h with Some _ => true | None => false end) hs).

(** *** The component as an event handler *)

(** What the component reacts to: an animation frame at a given time, a
    resize of the container, a pointer move (canvas coordinates) and the
    pointer leaving the canvas. *)
Inductive Event :=
| Frame (currentTime : R)
| Resize (newWidth newHeight : R)
| MouseMove (px py : R)
| MouseLeave.

(** The callback the component runs for an event, with the draw calls it
    issues.  (When the size changes, React runs the effect again, which
    calls [updateCanvasSize] once more: a second [Resize] to the same
    size.) *)
Definition handle (P : Props) (ev : Event) (e : Engine) : Rand (Engine * list DrawCall) :=
  match ev with
  | Frame t => animate P t e
  | Resize w h => let* e' := updateCanvasSize P w h e in ret (e', [])
  | MouseMove px py => ret (handleMouseMove px py e, [])
  | MouseLeave => ret (handleMouseLeave e, [])
  end.

(** The events of a session, oldest first. *)
Fixpoint run (P : Props) (evs : list Event) (e : Engine) : Rand (Engine * list DrawCall) :=
  match evs with
  | [] => ret (e, [])
  | ev :: evs' =>
      let* r := handle P ev e in
      let* r' := run P evs' (fst r) in
      ret (fst r', snd r ++ snd r')
  end.

(** The initial values of the refs and of the state (lines 43-47), with
    [lastTime] read from the clock (line 275). *)
Definition initialEngine (now : R) : Engine :=
  mkEngine [] (0, 0) (-1000, -1000) 0 (0, 0) now.

(** *** Hover release *)

(** The pointer is outside the cell in frame [f]. *)
Definition released (P : Props) (f : HoverFrame) : Prop :=
  isPointInHexagon (fst (hfMouse f)) (snd (hfMouse f)) (hfScreenX f) (hfScreenY f)
    (hexSize P) = false.

(** The fraction of the hover opacity lost in frame [f] while the pointer
    is outside. *)
Definition releaseFactor (P : Props) (f : HoverFrame) : R :=
  hoverSpeed P false * hfDeltaTime f * 60.

(** The part of the hover opacity left after the frames [fs]. *)
Definition remainingFactor (P : Props) (fs : list HoverFrame) : R :=
  fold_right (fun f acc => (1 - releaseFactor P f) * acc) 1 fs.

(** The number of rows [initializeGrid] lays out for a viewport of the
    given height: the length of the range of its [row] loop. *)
Definition generatedRows (P : Props) (height : R) : nat :=
  length (loopRange (Zceil (height / verticalSpacing P) + 2)).

(** A frame with the pointer at its resting place, seen from a cell at
    screen position (100, 100). *)
Definition sampleReleasedFrame (dt : R) : HoverFrame :=
  mkHoverFrame (-1000, -1000) 100 100 dt.

(** A hover-enabled cell at (100, 100) with some hover opacity left. *)
Definition sampleFading : Hexagon :=
  mkHexagon 100 100 true false false 0 0.001 1 0.6 0.8 None.

(** ** The earlier revision of the component ([src/unnamed/part_000])

    The same props, geometry, containment test, tiling and wrap rule; cells
    have a static opacity instead of the oscillation and the colours, and a
    frame draws all the stars before all the hexagons. *)

Module Part000.

(** [interface Hexagon]. *)
Record Hexagon := mkHexagon {
  x : R;
  y : R;
  hasStaticOpacity : bool;
  shouldHover : bool;
  opacity : R;
  hoverOpacity : R;
  hoverTarget : R
}.

Record Engine := mkEngine {
  hexagonsRef : list Hexagon;
  offsetRef : R * R;
  mouseRef : R * R;
  waveTimeRef : R;
  canvasSize : R * R;
  lastTime : R
}.

(** [drawHexagon(ctx, cx, cy, size, opacity)]: the undistorted outline. *)
Definition drawHexagon (cx cy size alpha : R) : list DrawCall :=
  if alpha <=? 0.01 then []
  else [FillHexagon (getHexagonVertices cx cy size) None alpha].

(** [drawStar(ctx, x, y, size, wave, waveOffset)]. *)
Definition drawStar (sx sy size w waveOffset : R) : list DrawCall :=
  let brightness := 0.08 + w * 0.08 in
  let yOffset := - (w - 0.5) * 4 in
  [FillStar sx (sy + yOffset + waveOffset) size brightness].

Section Component.

Variable P : Props.

(** One cell of [initializeGrid] (lines 70-85). *)
Definition newHexagon (row col : Z) : Rand Hexagon :=
  let cellX := IZR col * hexWidth P + IZR (Z.rem row 2) * (hexWidth P / 2) in
  let cellY := IZR row * verticalSpacing P in
  let* r1 := random in
  let static := r1 <? staticHexChance P in
  let* r2 := random in
  let hover := r2 <? staticHexChance P in
  let* o := (if static then let* r3 := random in ret (r3 * 0.5) else ret 0) in
  ret {| x := cellX;
         y := cellY;
         hasStaticOpacity := static;
         shouldHover := hover;
         opacity := o;
         hoverOpacity := 0;
         hoverTarget := 0 |}.

(** [initializeGrid(width, height)]. *)
Definition initializeGrid (width height : R) : Rand (list Hexagon) :=
  let cols := (Zceil (width / hexWidth P) + 2)%Z in
  let rows := (Zceil (height / verticalSpacing P) + 2)%Z in
  let* rs := mapM (fun row => mapM (newHexagon row) (loopRange cols)) (loopRange rows) in
  ret (concat rs).

(** The re-roll of a wrapped cell (lines 235-240, and again 245-250). *)
Definition reroll (h : Hexagon) : Rand Hexagon :=
  let* r1 := random in
  let static := r1 <? staticHexChance P in
  let* o := (if static then let* r2 := random in ret (r2 * 0.5) else ret 0) in
  let* r3 := random in
  ret {| x := x h;
         y := y h;
         hasStaticOpacity := static;
         shouldHover := r3 <? staticHexChance P;
         opacity := o;
         hoverOpacity := 0;
         hoverTarget := 0 |}.

(** The body of the first [forEach] (lines 228-251). *)
Definition wrapHex (off size : R * R) (h : Hexagon) : Rand Hexagon :=
  let screenX := x h - fst off in
  let screenY := y h - snd off in
  let* h1 := (if screenX <? - hexWidth P * 3
              then reroll (mkHexagon (x h + wrapSpanX P size) (y h) (hasStaticOpacity h)
                             (shouldHover h) (opacity h) (hoverOpacity h) (hoverTarget h))
              else ret h) in
  if screenY <? - hexHeight P * 3
  then reroll (mkHexagon (x h1) (y h1 + wrapSpanY P size) (hasStaticOpacity h1)
                 (shouldHover h1) (opacity h1) (hoverOpacity h1) (hoverTarget h1))
  else ret h1.

(** The test of the star pass (lines 259-264): strictly inside the margin. *)
Definition starsVisible (size : R * R) (screenX screenY : R) : bool :=
  (screenX >? - hexWidth P) && (screenX <? fst size + hexWidth P)
  && (screenY >? - hexHeight P) && (screenY <? snd size + hexHeight P).

(** The body of the second [forEach] (lines 256-273). *)
Definition starsOf (off size : R * R) (waveTime : R) (h : Hexagon) : list DrawCall :=
  let screenX := x h - fst off in
  let screenY := y h - snd off in
  if starsVisible size screenX screenY then
    flat_map (fun vertex : R * R =>
                let w := (sin (waveTime + fst vertex * 0.003 + snd vertex * 0.003) + 1) / 2 in
                let waveOffset := sin (waveTime * 0.5 + fst vertex * 0.002) * 1 in
                drawStar (fst vertex) (snd vertex) 1.5 w waveOffset)
             (getHexagonVertices screenX screenY (hexSize P))
  else [].

(** The hover step (lines 292-304). *)
Definition updateHover (mouse : R * R) (screenX screenY deltaTime : R)
    (h : Hexagon) : Hexagon :=
  if shouldHover h then
    let isHovered := isPointInHexagon (fst mouse) (snd mouse) screenX screenY (hexSize P) in
    let target := if isHovered then 0.8 else 0 in
    let speed := hoverDelay P * (if isHovered then 0.5 else 1) in
    mkHexagon (x h) (y h) (hasStaticOpacity h) (shouldHover h) (opacity h)
      (hoverOpacity h + (target - hoverOpacity h) * speed * deltaTime * 60)
      target
  else h.

(** The body of the third [forEach] (lines 278-308). *)
Definition drawHex (off mouse size : R * R) (deltaTime : R) (h : Hexagon)
  : Hexagon * list DrawCall :=
  let screenX := x h - fst off in
  let screenY := y h - snd off in
  if offScreen P size screenX screenY then (h, [])
  else
    let h1 := updateHover mouse screenX screenY deltaTime h in
    let finalOpacity := Rmax (opacity h1) (hoverOpacity h1) in
    (h1, drawHexagon screenX screenY (hexSize P) finalOpacity).

(** [animate(currentTime)]: the wrap pass, the star pass, the hexagon pass. *)
Definition animate (currentTime : R) (e : Engine) : Rand (Engine * list DrawCall) :=
  let deltaTime := (currentTime - lastTime e) / 1000 in
  let off := (fst (offsetRef e) + panSpeed P * deltaTime * 60,
              snd (offsetRef e) + panSpeed P * deltaTime * 60) in
  let waveTime := waveTimeRef e + deltaTime * 2 in
  let size := canvasSize e in
  let* wrapped := mapM (wrapHex off size) (hexagonsRef e) in
  let stars := flat_map (starsOf off size waveTime) wrapped in
  let drawn := map (drawHex off (mouseRef e) size deltaTime) wrapped in
  ret ({| hexagonsRef := map fst drawn;
          offsetRef := off;
          mouseRef := mouseRef e;
          waveTimeRef := waveTime;
          canvasSize := size;
          lastTime := currentTime |},
       ClearCanvas (fst size) (snd size) :: stars ++ flat_map snd drawn).

End Component.

(** The opacity of a cell is what its static flag allows: below 0.5, and 0
    without the flag. *)
Definition opacityOK (h : Hexagon) : Prop :=
  0 <= opacity h < 0.5 /\ (hasStaticOpacity h = false -> opacity h = 0).

End Part000.

(** * Properties *)

(** ** Comparisons *)

Lemma Rltb_true (a b : R) : (a <? b) = true <-> a < b.
Proof. unfold Rltb. destruct (Rlt_dec a b); split; intros; try lra; discriminate. Qed.

Lemma Rltb_false (a b : R) : (a <? b) = false <-> b <= a.
Proof. unfold Rltb. destruct (Rlt_dec a b); split; intros; try lra; discriminate. Qed.

Lemma Rleb_true (a b : R) : (a <=? b) = true <-> a <= b.
Proof. unfold Rleb. destruct (Rle_dec a b); split; intros; try lra; discriminate. Qed.

Lemma Rleb_false (a b : R) : (a <=? b) = false <-> b < a.
Proof. unfold Rleb. destruct (Rle_dec a b); split; intros; try lra; discriminate. Qed.

Lemma Rgtb_true (a b : R) : (a >? b) = true <-> b < a.
Proof. apply Rltb_true. Qed.

Lemma Rgtb_false (a b : R) : (a >? b) = false <-> a <= b.
Proof. apply Rltb_false. Qed.

Lemma Rgeb_true (a b : R) : (a >=? b) = true <-> b <= a.
Proof. apply Rleb_true. Qed.

Lemma Rgeb_false (a b : R) : (a >=? b) = false <-> a < b.
Proof. apply Rleb_false. Qed.

(** [rcases] decides every comparison left in the goal and records the
    outcome as an inequality. *)
Ltac rcase_one :=
  match goal with
  | |- context [Rltb ?a ?b] =>
      let E := fresh "E" in
      destruct (Rltb a b) eqn:E;
      [apply Rltb_true in E | apply Rltb_false in E]
  | |- context [Rleb ?a ?b] =>
      let E := fresh "E" in
      destruct (Rleb a b) eqn:E;
      [apply Rleb_true in E | apply Rleb_false in E]
  end.
Ltac rcases := unfold Rgtb, Rgeb in *; repeat rcase_one.

(** ** Reasoning about computations that draw *)

Lemma validRng_draws (g : Rng) : validRng g <-> draws unitDraw g.
Proof. reflexivity. Qed.

Lemma draws_tail (D : R -> Prop) (g : Rng) :
  draws D g -> draws D (fun n => g (S n)).
Proof. intros Hg n. apply Hg. Qed.

Lemma post_ret {A : Type} (D : R -> Prop) (a : A) (Q : A -> Prop) :
  Q a -> post D (ret a) Q.
Proof. intros Ha g Hg. split; assumption. Qed.

Lemma post_bind {A B : Type} (D : R -> Prop) (m : Rand A) (k : A -> Rand B)
    (Q1 : A -> Prop) (Q2 : B -> Prop) :
  post D m Q1 -> (forall a, Q1 a -> post D (k a) Q2) -> post D (bind m k) Q2.
Proof.
  intros Hm Hk g Hg. unfold bind.
  destruct (Hm g Hg) as [Ha Hg']. destruct (m g) as [a g']. simpl in *.
  apply (Hk a Ha g' Hg').
Qed.

Lemma post_random (D : R -> Prop) : post D random D.
Proof. intros g Hg. split; [apply Hg | apply draws_tail, Hg]. Qed.

Lemma post_weaken {A : Type} (D : R -> Prop) (m : Rand A) (Q Q' : A -> Prop) :
  post D m Q -> (forall a, Q a -> Q' a) -> post D m Q'.
Proof. intros Hm HQ g Hg. destruct (Hm g Hg). split; auto. Qed.

Lemma post_mapM {A B : Type} (D : R -> Prop) (f : A -> Rand B)
    (T : A -> B -> Prop) (l : list A) :
  (forall a, post D (f a) (T a)) -> post D (mapM f l) (Forall2 T l).
Proof.
  intros Hf. induction l as [| a l IH]; simpl.
  - apply post_ret. constructor.
  - eapply post_bind; [apply Hf |]. intros b Hb.
    eapply post_bind; [apply IH |]. intros bs Hbs.
    apply post_ret. constructor; assumption.
Qed.

Lemma post_foldM {A S : Type} (D : R -> Prop) (f : A -> S -> Rand S)
    (Inv : S -> Prop) (l : list A) :
  (forall a s, Inv s -> post D (f a s) Inv) ->
  forall s, Inv s -> post D (foldM f l s) Inv.
Proof.
  intros Hf. induction l as [| a l IH]; intros s Hs; simpl.
  - apply post_ret. exact Hs.
  - eapply post_bind; [apply Hf; exact Hs |]. intros s' Hs'. apply IH. exact Hs'.
Qed.

Lemma Forall2_right {A B : Type} (Q : B -> Prop) (l : list A) (l' : list B) :
  Forall2 (fun _ b => Q b) l l' -> Forall Q l'.
Proof. induction 1; constructor; assumption. Qed.

Lemma Forall2_same_length {A B : Type} (T : A -> B -> Prop) (l : list A) (l' : list B) :
  Forall2 T l l' -> length l' = length l.
Proof. induction 1; simpl; congruence. Qed.

(** [rand_eval] runs a straight-line computation on the stream at hand,
    deciding the comparisons it meets. *)
Ltac rand_eval := unfold bind, random, ret; simpl; rcases; simpl.

(** ** Properties of the geometry and of the wave *)

Lemma sqrt3_pos : 0 < sqrt 3.
Proof. apply sqrt_lt_R0. lra. Qed.

Lemma rawWave_bounds (t vx vy : R) : 0 <= rawWave t vx vy <= 1.
Proof.
  unfold rawWave.
  pose proof (SIN_bound (t + vx * 0.01 + vy * 0.01)) as [Hlo Hhi].
  lra.
Qed.

Lemma pow4_unit (r : R) : 0 <= r <= 1 -> 0 <= r ^ 4 <= 1.
Proof.
  intros [H0 H1]. split.
  - apply pow_le; assumption.
  - rewrite <- (pow1 4). apply pow_incr. lra.
Qed.

Lemma isPointInHexagon_center (cx cy s : R) :
  0 < s -> isPointInHexagon cx cy cx cy s = true.
Proof.
  intros Hs. pose proof sqrt3_pos as H3.
  unfold isPointInHexagon.
  replace (cx - cx) with 0 by lra. replace (cy - cy) with 0 by lra.
  rewrite Rabs_R0. unfold Rdiv at 2. rewrite Rmult_0_l.
  assert (0 < s * sqrt 3) by (apply Rmult_lt_0_compat; assumption).
  rcases; simpl; try reflexivity; lra.
Qed.

(** C7. The centre of a hexagon of positive size is inside it; a point
    straight above or below the centre at a distance greater than the size
    is outside; and the function is the bounding-diamond test of the
    specification. *)
Theorem isPointInHexagon_spec (px py cx cy s : R) :
  0 < s ->
  isPointInHexagon cx cy cx cy s = true /\
  (Rabs (py - cy) > s -> isPointInHexagon cx py cx cy s = false) /\
  (isPointInHexagon px py cx cy s = true <-> boundingDiamondSpec px py cx cy s).
Proof.
  intros Hs. pose proof sqrt3_pos as H3.
  assert (Hw : 0 < s * sqrt 3) by (apply Rmult_lt_0_compat; assumption).
  split; [| split].
  - apply isPointInHexagon_center. exact Hs.
  - intros Hfar. unfold isPointInHexagon.
    rcases; simpl; try reflexivity; lra.
  - unfold isPointInHexagon, boundingDiamondSpec.
    rcases; simpl; split; intros H; try discriminate; try reflexivity;
      try (split; [intros [?|?]; lra | lra]);
      destruct H as [Hn Hd]; try lra;
      exfalso; apply Hn; (left; lra) || (right; lra).
Qed.

Lemma isPointInHexagon_spec_witness :
  isPointInHexagon 10 20 10 20 30 = true /\
  (Rabs (51 - 20) > 30 -> isPointInHexagon 10 51 10 20 30 = false) /\
  (isPointInHexagon 12 51 10 20 30 = true <-> boundingDiamondSpec 12 51 10 20 30).
Proof. apply (isPointInHexagon_spec 12 51 10 20 30). lra. Defined.

(** C8. The wave is periodic in time with period [2*PI] at every fixed
    position, and its value lies in [0, 1]. *)
Theorem wave_periodic_bounded (t vx vy : R) :
  wave t vx vy = wave (t + 2 * PI) vx vy /\ 0 <= wave t vx vy <= 1.
Proof.
  split.
  - unfold wave, rawWave.
    replace (t + 2 * PI + vx * 0.01 + vy * 0.01)
      with ((t + vx * 0.01 + vy * 0.01) + 2 * INR 1 * PI) by (simpl; lra).
    rewrite sin_period. reflexivity.
  - apply pow4_unit, rawWave_bounds.
Qed.

(** ** The oscillation step *)

Lemma updateOscillation_flag (dt : R) (h : Hexagon) :
  shouldOscillate (updateOscillation dt h) = shouldOscillate h.
Proof.
  unfold updateOscillation. destruct (shouldOscillate h) eqn:E; [| exact E].
  rcases; simpl; exact E.
Qed.

Lemma updateOscillation_band (dt : R) (h : Hexagon) :
  shouldOscillate h = true -> inBand (opacity (updateOscillation dt h)).
Proof.
  intros Hosc. unfold updateOscillation, inBand. rewrite Hosc.
  rcases; simpl in *; lra.
Qed.

Lemma updateOscillation_idle (dt : R) (h : Hexagon) :
  shouldOscillate h = false -> updateOscillation dt h = h.
Proof. intros Hosc. unfold updateOscillation. rewrite Hosc. reflexivity. Qed.

Lemma oscillateFrames_band (dts : list R) (h : Hexagon) :
  shouldOscillate h = true -> inBand (opacity h) ->
  shouldOscillate (oscillateFrames dts h) = true /\
  inBand (opacity (oscillateFrames dts h)).
Proof.
  unfold oscillateFrames. revert h.
  induction dts as [| dt dts IH]; intros h Hosc Hband; simpl.
  - split; assumption.
  - apply IH.
    + rewrite updateOscillation_flag. exact Hosc.
    + apply updateOscillation_band. exact Hosc.
Qed.

(** C1. An oscillating cell whose opacity is in the band [0.05, 0.4] is
    still in the band after the oscillation step of a frame; the step sets
    the direction to -1 exactly when the stepped opacity reaches 0.4 (and
    the opacity is then 0.4), to +1 exactly when it reaches 0.05 (and the
    opacity is then 0.05), and leaves it alone in between; and the cell is
    in the band after any number of frames with non-negative delta times. *)
Theorem oscillation_stays_in_band (h : Hexagon) (dt : R) (dts : list R) :
  shouldOscillate h = true ->
  inBand (opacity h) ->
  0 <= dt ->
  Forall (fun d => 0 <= d) dts ->
  let h' := updateOscillation dt h in
  inBand (opacity h') /\
  (0.4 <= rawOpacity dt h ->
     opacity h' = 0.4 /\ oscillationDirection h' = -1) /\
  (rawOpacity dt h <= 0.05 ->
     opacity h' = 0.05 /\ oscillationDirection h' = 1) /\
  (0.05 < rawOpacity dt h < 0.4 ->
     opacity h' = rawOpacity dt h /\
     oscillationDirection h' = oscillationDirection h) /\
  (opacity h' = 0.4 <-> 0.4 <= rawOpacity dt h) /\
  (opacity h' = 0.05 <-> rawOpacity dt h <= 0.05) /\
  shouldOscillate (oscillateFrames dts h) = true /\
  inBand (opacity (oscillateFrames dts h)).
Proof.
  intros Hosc Hband Hdt Hdts h'.
  split; [apply updateOscillation_band; exact Hosc |].
  assert (Hcases :
    (0.4 <= rawOpacity dt h /\ opacity h' = 0.4 /\ oscillationDirection h' = -1) \/
    (rawOpacity dt h <= 0.05 /\ opacity h' = 0.05 /\ oscillationDirection h' = 1) \/
    (0.05 < rawOpacity dt h < 0.4 /\ opacity h' = rawOpacity dt h /\
     oscillationDirection h' = oscillationDirection h)).
  { subst h'. unfold updateOscillation, rawOpacity. rewrite Hosc.
    rcases; simpl in *.
    - left. repeat split; lra.
    - right; left. repeat split; lra.
    - right; right. repeat split; lra. }
  repeat split; try (intros; destruct Hcases as [Hc | [Hc | Hc]]; lra).
  - apply (oscillateFrames_band dts h Hosc Hband).
  - apply (oscillateFrames_band dts h Hosc Hband).
  - apply (oscillateFrames_band dts h Hosc Hband).
Qed.

Lemma oscillation_stays_in_band_witness :
  inBand (opacity (updateOscillation (1 / 60) sampleOscillating)) /\
  inBand (opacity (oscillateFrames [1 / 60; 1 / 30] sampleOscillating)).
Proof.
  destruct (oscillation_stays_in_band sampleOscillating (1 / 60) [1 / 60; 1 / 30])
    as (Hstep & _ & _ & _ & _ & _ & _ & Hrun).
  - reflexivity.
  - unfold inBand; simpl; lra.
  - lra.
  - repeat constructor; lra.
  - split; assumption.
Defined.

(** ** The hover step *)

Lemma updateHover_eq (P : Props) (mouse : R * R) (sx sy dt : R) (h : Hexagon) :
  shouldHover h = true ->
  let inside := isPointInHexagon (fst mouse) (snd mouse) sx sy (hexSize P) in
  let h' := updateHover P mouse sx sy dt h in
  shouldHover h' = true /\
  hoverTarget h' = (if inside then 0.8 else 0) /\
  hoverOpacity h' =
    hoverOpacity h + (hoverTarget h' - hoverOpacity h) * hoverSpeed P inside * dt * 60.
Proof.
  intros Hh. unfold updateHover. rewrite Hh. simpl. auto.
Qed.

(** C3, as the code has it.  For a hover-enabled cell the hover step moves
    [hoverOpacity] towards its target by the fraction
    [hoverSpeed * deltaTime * 60] of the remaining distance, and for a
    positive [hoverDelay] the rate with the pointer inside the cell is half
    the rate with the pointer outside: strictly smaller, not greater. *)
Theorem hover_ease_rates (P : Props) (mouse : R * R) (sx sy dt : R) (h : Hexagon) :
  0 < hoverDelay P ->
  shouldHover h = true ->
  let inside := isPointInHexagon (fst mouse) (snd mouse) sx sy (hexSize P) in
  let h' := updateHover P mouse sx sy dt h in
  hoverOpacity h' =
    hoverOpacity h + (hoverTarget h' - hoverOpacity h) * hoverSpeed P inside * dt * 60 /\
  hoverSpeed P true * 2 = hoverSpeed P false /\
  hoverSpeed P true < hoverSpeed P false.
Proof.
  intros Hd Hh inside h'.
  split; [apply (updateHover_eq P mouse sx sy dt h Hh) |].
  unfold hoverSpeed. split; lra.
Qed.

Lemma hover_ease_rates_witness :
  hoverSpeed defaultProps true * 2 = hoverSpeed defaultProps false /\
  hoverSpeed defaultProps true < hoverSpeed defaultProps false.
Proof.
  destruct (hover_ease_rates defaultProps (100, 100) 100 100 (1 / 60) sampleHover)
    as (_ & Hhalf & Hlt).
  - simpl; lra.
  - reflexivity.
  - split; assumption.
Defined.

(** C3, as stated, fails for the default props: entering hover eases at
    0.15 per frame unit, leaving at 0.3. *)
Lemma entering_not_faster_than_leaving :
  ~ (hoverSpeed defaultProps true > hoverSpeed defaultProps false).
Proof. unfold hoverSpeed; simpl. lra. Qed.

Lemma hoverFrame_held (P : Props) (f : HoverFrame) (h : Hexagon) :
  shouldHover h = true -> held P f ->
  shouldHover (hoverFrame P f h) = true /\
  hoverOpacity (hoverFrame P f h) =
    hoverOpacity h + (0.8 - hoverOpacity h) * easeFactor P f.
Proof.
  intros Hh Hheld. unfold hoverFrame, easeFactor.
  pose proof (updateHover_eq P (hfMouse f) (hfScreenX f) (hfScreenY f)
                (hfDeltaTime f) h Hh) as (Hs & Ht & Ho).
  unfold held in Hheld. rewrite Hheld in Ht, Ho.
  split; [exact Hs |]. rewrite Ho, Ht. ring.
Qed.

Lemma hoverTrace_held (P : Props) (fs : list HoverFrame) :
  forall h : Hexagon,
  shouldHover h = true ->
  hoverOpacity h <= 0.8 ->
  Forall (held P) fs ->
  Forall (fun f => 0 <= easeFactor P f <= 1) fs ->
  Forall (fun v => hoverOpacity h <= v <= 0.8) (hoverTrace P fs h) /\
  StronglySorted Rle (hoverTrace P fs h) /\
  0.8 - List.last (hoverTrace P fs h) (hoverOpacity h) =
    (0.8 - hoverOpacity h) * gapFactor P fs.
Proof.
  induction fs as [| f fs IH]; intros h Hh Hle Hheld Hk; simpl.
  - repeat split; [constructor | constructor | lra].
  - inversion Hheld as [| ? ? Hf Hfs]; subst.
    inversion Hk as [| ? ? Kf Kfs]; subst.
    destruct (hoverFrame_held P f h Hh Hf) as [Hh' Ho'].
    set (h' := hoverFrame P f h) in *.
    assert (Hstep : hoverOpacity h <= hoverOpacity h' <= 0.8) by (rewrite Ho'; nra).
    destruct (IH h' Hh' (proj2 Hstep) Hfs Kfs) as (Hall & Hsorted & Hgap).
    assert (Hall' : Forall (fun v => hoverOpacity h' <= v) (hoverTrace P fs h')).
    { eapply Forall_impl; [exact Hall |]. simpl. intros v Hv. lra. }
    split; [| split].
    + constructor; [lra |].
      eapply Forall_impl; [exact Hall |]. simpl. intros v Hv. lra.
    + constructor; assumption.
    + destruct (hoverTrace P fs h') as [| v vs] eqn:Etrace.
      * simpl in *. rewrite Ho'. nra.
      * change (List.last (hoverOpacity h' :: v :: vs) (hoverOpacity h))
          with (List.last (v :: vs) (hoverOpacity h)).
        replace (List.last (v :: vs) (hoverOpacity h))
          with (List.last (v :: vs) (hoverOpacity h'))
          by (clear; revert v; induction vs as [| w vs IHv]; intros v;
              [reflexivity | exact (IHv w)]).
        rewrite Hgap, Ho'. ring.
Qed.

(** C4, as the code has it.  With the pointer inside a hover-enabled cell on
    every frame, starting from [hoverOpacity = 0], and with every frame's
    ease fraction [hoverDelay * 0.5 * deltaTime * 60] between 0 and 1, the
    hover opacities of the successive frames never decrease, never exceed
    0.8, and the distance to 0.8 left after the frames is 0.8 times the
    product of the [1 - fraction] of the frames. *)
Theorem hover_hold_monotone (P : Props) (fs : list HoverFrame) (h : Hexagon) :
  shouldHover h = true ->
  hoverOpacity h = 0 ->
  Forall (held P) fs ->
  Forall (fun f => 0 < hfDeltaTime f) fs ->
  Forall (fun f => 0 <= easeFactor P f <= 1) fs ->
  StronglySorted Rle (hoverOpacity h :: hoverTrace P fs h) /\
  Forall (fun v => v <= 0.8) (hoverTrace P fs h) /\
  0.8 - List.last (hoverTrace P fs h) (hoverOpacity h) = 0.8 * gapFactor P fs.
Proof.
  intros Hh H0 Hheld _ Hk.
  assert (Hle : hoverOpacity h <= 0.8) by lra.
  destruct (hoverTrace_held P fs h Hh Hle Hheld Hk) as (Hall & Hsorted & Hgap).
  split; [| split].
  - constructor; [exact Hsorted |].
    eapply Forall_impl; [exact Hall |]. simpl. intros v Hv. lra.
  - eapply Forall_impl; [exact Hall |]. simpl. intros v Hv. lra.
  - rewrite Hgap, H0. ring.
Qed.

Lemma sampleHeldFrame_held (dt : R) : held defaultProps (sampleHeldFrame dt).
Proof. unfold held. simpl. apply isPointInHexagon_center. lra. Qed.

Lemma hover_hold_monotone_witness :
  StronglySorted Rle
    (0 :: hoverTrace defaultProps [sampleHeldFrame (1 / 60); sampleHeldFrame (1 / 30)]
            sampleHover) /\
  Forall (fun v => v <= 0.8)
    (hoverTrace defaultProps [sampleHeldFrame (1 / 60); sampleHeldFrame (1 / 30)]
       sampleHover).
Proof.
  destruct (hover_hold_monotone defaultProps
              [sampleHeldFrame (1 / 60); sampleHeldFrame (1 / 30)] sampleHover)
    as (Hsorted & Hbound & _).
  - reflexivity.
  - reflexivity.
  - repeat constructor; apply sampleHeldFrame_held.
  - repeat constructor; simpl; lra.
  - repeat constructor; unfold easeFactor, hoverSpeed; simpl; lra.
  - split; assumption.
Defined.

(** C4, as stated, fails: after a single frame of one second with the
    pointer at the centre of the cell the hover opacity is 7.2. *)
Lemma hover_hold_overshoots :
  shouldHover sampleHover = true /\
  hoverOpacity sampleHover = 0 /\
  Forall (held defaultProps) [sampleHeldFrame 1] /\
  Forall (fun f => 0 < hfDeltaTime f) [sampleHeldFrame 1] /\
  hoverTrace defaultProps [sampleHeldFrame 1] sampleHover = [7.2] /\
  ~ Forall (fun v => v <= 0.8) (hoverTrace defaultProps [sampleHeldFrame 1] sampleHover).
Proof.
  assert (Htrace : hoverTrace defaultProps [sampleHeldFrame 1] sampleHover = [7.2]).
  { cbn [hoverTrace]. f_equal.
    destruct (hoverFrame_held defaultProps (sampleHeldFrame 1) sampleHover
                eq_refl (sampleHeldFrame_held 1)) as [_ Ho].
    rewrite Ho. unfold easeFactor, hoverSpeed. simpl. lra. }
  repeat split.
  - repeat constructor. apply sampleHeldFrame_held.
  - repeat constructor. simpl. lra.
  - exact Htrace.
  - rewrite Htrace. intros Hall. inversion Hall as [| ? ? Hv _]; subst. lra.
Qed.

(** ** The recycle step *)

Lemma reroll_fields (P : Props) (h : Hexagon) (g : Rng) :
  x (fst (reroll P h g)) = x h /\
  y (fst (reroll P h g)) = y h /\
  color (fst (reroll P h g)) = None /\
  hoverOpacity (fst (reroll P h g)) = 0 /\
  hoverTarget (fst (reroll P h g)) = 0.
Proof. unfold reroll. rand_eval; auto. Qed.

Lemma wrapHex_unwrapped (P : Props) (off size : R * R) (h : Hexagon) (g : Rng) :
  wrapsX P off h = false -> wrapsY P off h = false ->
  wrapHex P off size h g = (h, g).
Proof. intros HX HY. unfold wrapHex, bind. rewrite HX, HY. reflexivity. Qed.

Lemma wrapHex_x (P : Props) (off size : R * R) (h : Hexagon) (g : Rng) :
  x (fst (wrapHex P off size h g)) =
    if wrapsX P off h then x h + wrapSpanX P size else x h.
Proof.
  unfold wrapHex, bind.
  destruct (wrapsX P off h), (wrapsY P off h); unfold ret; simpl.
  - destruct (reroll P (setX _ h) g) as [h1 g1] eqn:E1.
    pose proof (reroll_fields P (setX (x h + wrapSpanX P size) h) g) as (Hx & _).
    rewrite E1 in Hx. simpl in Hx.
    pose proof (reroll_fields P (setY (y h1 + wrapSpanY P size) h1) g1) as (Hx' & _).
    rewrite Hx'. simpl. exact Hx.
  - destruct (reroll P (setX _ h) g) as [h1 g1] eqn:E1.
    pose proof (reroll_fields P (setX (x h + wrapSpanX P size) h) g) as (Hx & _).
    rewrite E1 in Hx. exact Hx.
  - pose proof (reroll_fields P (setY (y h + wrapSpanY P size) h) g) as (Hx' & _).
    exact Hx'.
  - reflexivity.
Qed.

Lemma wrapHex_y (P : Props) (off size : R * R) (h : Hexagon) (g : Rng) :
  y (fst (wrapHex P off size h g)) =
    if wrapsY P off h then y h + wrapSpanY P size else y h.
Proof.
  unfold wrapHex, bind.
  destruct (wrapsX P off h), (wrapsY P off h); unfold ret; simpl.
  - destruct (reroll P (setX _ h) g) as [h1 g1] eqn:E1.
    pose proof (reroll_fields P (setX (x h + wrapSpanX P size) h) g) as (_ & Hy & _).
    rewrite E1 in Hy. simpl in Hy.
    pose proof (reroll_fields P (setY (y h1 + wrapSpanY P size) h1) g1) as (_ & Hy' & _).
    rewrite Hy'. simpl. rewrite Hy. reflexivity.
  - destruct (reroll P (setX _ h) g) as [h1 g1] eqn:E1.
    pose proof (reroll_fields P (setX (x h + wrapSpanX P size) h) g) as (_ & Hy & _).
    rewrite E1 in Hy. exact Hy.
  - pose proof (reroll_fields P (setY (y h + wrapSpanY P size) h) g) as (_ & Hy' & _).
    exact Hy'.
  - reflexivity.
Qed.

Lemma wrapHex_reset (P : Props) (off size : R * R) (h : Hexagon) (g : Rng) :
  wrapsX P off h || wrapsY P off h = true ->
  color (fst (wrapHex P off size h g)) = None /\
  hoverOpacity (fst (wrapHex P off size h g)) = 0 /\
  hoverTarget (fst (wrapHex P off size h g)) = 0.
Proof.
  unfold wrapHex, bind.
  destruct (wrapsX P off h), (wrapsY P off h); unfold ret; simpl;
    intros Hw; try discriminate.
  - destruct (reroll P (setX _ h) g) as [h1 g1].
    apply (reroll_fields P (setY (y h1 + wrapSpanY P size) h1) g1).
  - destruct (reroll P (setX _ h) g) as [h1 g1] eqn:E1.
    pose proof (reroll_fields P (setX (x h + wrapSpanX P size) h) g) as HF.
    rewrite E1 in HF. apply HF.
  - apply (reroll_fields P (setY (y h + wrapSpanY P size) h) g).
Qed.

Lemma wrapHex_color (P : Props) (off size : R * R) (h : Hexagon) (g : Rng) :
  color (fst (wrapHex P off size h g)) = None \/
  color (fst (wrapHex P off size h g)) = color h.
Proof.
  destruct (wrapsX P off h || wrapsY P off h) eqn:Hw.
  - left. apply (wrapHex_reset P off size h g Hw).
  - apply orb_false_iff in Hw as [HX HY].
    right. rewrite (wrapHex_unwrapped P off size h g HX HY). reflexivity.
Qed.

Lemma sqrt3_bounds : 1.7 < sqrt 3 < 1.8.
Proof.
  pose proof sqrt3_pos as Hpos.
  assert (Hsq : sqrt 3 * sqrt 3 = 3) by (apply sqrt_sqrt; lra).
  split; nra.
Qed.

Lemma hexWidth_pos (P : Props) : 0 < hexSize P -> 0 < hexWidth P.
Proof.
  intros Hs. unfold hexWidth. apply Rmult_lt_0_compat; [exact Hs | apply sqrt3_pos].
Qed.

Lemma Zceil_nonneg (r : R) : 0 <= r -> (0 <= Zceil r)%Z.
Proof.
  intros Hr. pose proof (Zceil_bound r) as [_ Hup].
  apply le_IZR. lra.
Qed.

Lemma length_loopRange (n : Z) : length (loopRange n) = Z.to_nat (n + 1).
Proof. unfold loopRange. apply length_seqZ. Qed.

Lemma generatedColumns_eq (P : Props) (width : R) :
  0 < hexSize P -> 0 <= width ->
  INR (generatedColumns P width) = IZR (Zceil (width / hexWidth P)) + 3.
Proof.
  intros Hs Hw. unfold generatedColumns. rewrite length_loopRange.
  assert (Hc : (0 <= Zceil (width / hexWidth P))%Z).
  { apply Zceil_nonneg. apply Rle_mult_inv_pos; [exact Hw | apply hexWidth_pos, Hs]. }
  rewrite INR_IZR_INZ, Z2Nat.id by lia.
  rewrite !plus_IZR. lra.
Qed.

(** C6, as the code has it.  A cell whose screen x is below the wrap
    threshold [-3 * hexWidth], by no more than one wrap span, has after the
    recycle step a screen x at or above the threshold; its world x has grown
    by exactly [hexWidth * (ceil(width / hexWidth) + 4)], which is one
    [hexWidth] more than the width of the columns the grid was generated
    with. *)
Theorem recycle_x (P : Props) (off size : R * R) (h : Hexagon) (g : Rng) :
  0 < hexSize P ->
  0 <= fst size ->
  x h - fst off < - hexWidth P * 3 ->
  - hexWidth P * 3 - wrapSpanX P size <= x h - fst off ->
  let h' := fst (wrapHex P off size h g) in
  - hexWidth P * 3 <= x h' - fst off /\
  x h' = x h + hexWidth P * (IZR (Zceil (fst size / hexWidth P)) + 4) /\
  x h' - x h = hexWidth P * INR (generatedColumns P (fst size)) + hexWidth P.
Proof.
  intros Hs Hw Hbelow Hnear h'. subst h'.
  rewrite wrapHex_x.
  assert (HX : wrapsX P off h = true) by (unfold wrapsX; apply Rltb_true; exact Hbelow).
  rewrite HX. rewrite (generatedColumns_eq P (fst size) Hs Hw).
  unfold wrapSpanX in *. repeat split; lra.
Qed.

Lemma hexWidth_default : 51 < hexWidth defaultProps < 54.
Proof. unfold hexWidth; simpl. pose proof sqrt3_bounds. lra. Qed.

Lemma Zceil_300_hexWidth (P : Props) :
  hexSize P = 30 -> Zceil (300 / hexWidth P) = 6%Z.
Proof.
  intros Hs. apply Zceil_eq. unfold hexWidth. rewrite Hs.
  pose proof sqrt3_bounds as [Hlo Hhi].
  assert (Hpos : 0 < 30 * sqrt 3) by lra.
  split.
  - apply Rmult_lt_reg_r with (30 * sqrt 3); [exact Hpos |].
    unfold Rdiv. rewrite Rmult_assoc, Rinv_l by lra. lra.
  - apply Rmult_le_reg_r with (30 * sqrt 3); [exact Hpos |].
    unfold Rdiv. rewrite Rmult_assoc, Rinv_l by lra. lra.
Qed.

Lemma Zceil_300_verticalSpacing (P : Props) :
  hexSize P = 30 -> Zceil (300 / verticalSpacing P) = 7%Z.
Proof.
  intros Hs. apply Zceil_eq. unfold verticalSpacing, hexHeight. rewrite Hs.
  split; lra.
Qed.

Lemma wrapSpanX_default : wrapSpanX defaultProps (300, 300) = hexWidth defaultProps * 10.
Proof.
  unfold wrapSpanX. cbn [fst]. rewrite (Zceil_300_hexWidth defaultProps eq_refl). lra.
Qed.

Lemma recycle_x_witness :
  - hexWidth defaultProps * 3
    <= x (fst (wrapHex defaultProps (120, 0) (300, 300) sampleEdgeCell (fun _ => 0.5)))
       - 120.
Proof.
  pose proof hexWidth_default as Hhw.
  destruct (recycle_x defaultProps (120, 0) (300, 300) sampleEdgeCell (fun _ => 0.5))
    as (Hscreen & _ & _).
  - simpl; lra.
  - simpl; lra.
  - simpl; lra.
  - rewrite wrapSpanX_default. simpl; lra.
  - exact Hscreen.
Defined.

(** C6, as stated, fails.  With the default props on a 300 x 300 canvas, the
    leftmost generated cell of row 0, seen when the pan offset has reached
    1000, is below the wrap threshold before and after the recycle step; and
    the step moves it by ten cell widths, while the grid was generated nine
    columns wide. *)
Lemma far_cell_stays_below_threshold :
  let h' := fst (wrapHex defaultProps (1000, 0) (300, 300) sampleEdgeCell (fun _ => 0.5)) in
  wrapsX defaultProps (1000, 0) sampleEdgeCell = true /\
  x h' - 1000 < - hexWidth defaultProps * 3 /\
  generatedColumns defaultProps 300 = 9%nat /\
  x h' - x sampleEdgeCell <> hexWidth defaultProps * INR (generatedColumns defaultProps 300).
Proof.
  pose proof hexWidth_default as Hhw.
  assert (HX : wrapsX defaultProps (1000, 0) sampleEdgeCell = true).
  { unfold wrapsX. apply Rltb_true. simpl. lra. }
  assert (Hcols : generatedColumns defaultProps 300 = 9%nat).
  { unfold generatedColumns. rewrite length_loopRange.
    rewrite (Zceil_300_hexWidth defaultProps eq_refl). reflexivity. }
  cbv zeta. rewrite wrapHex_x, HX, wrapSpanX_default, Hcols.
  repeat split.
  - simpl. lra.
  - simpl. lra.
Qed.

(** ** The draw pass *)

Lemma offScreen_true (P : Props) (size : R * R) (sx sy : R) :
  offScreen P size sx sy = true <->
  sx < - hexWidth P \/ sx > fst size + hexWidth P \/
  sy < - hexHeight P \/ sy > snd size + hexHeight P.
Proof.
  unfold offScreen. rewrite !orb_true_iff, !Rltb_true, !Rgtb_true.
  unfold Rgt. tauto.
Qed.

Lemma drawHex_offScreen (P : Props) (off mouse size : R * R) (wt dt : R) (h : Hexagon) :
  offScreen P size (x h - fst off) (y h - snd off) = true ->
  drawHex P off mouse size wt dt h = (h, []).
Proof. intros Hoff. unfold drawHex. rewrite Hoff. reflexivity. Qed.

Lemma updateOscillation_color (dt : R) (h : Hexagon) :
  color (updateOscillation dt h) = color h.
Proof.
  unfold updateOscillation. destruct (shouldOscillate h); [| reflexivity].
  rcases; reflexivity.
Qed.

Lemma updateHover_color (P : Props) (mouse : R * R) (sx sy dt : R) (h : Hexagon) :
  color (updateHover P mouse sx sy dt h) = color h.
Proof. unfold updateHover. destruct (shouldHover h); reflexivity. Qed.

Lemma drawHex_color (P : Props) (off mouse size : R * R) (wt dt : R) (h : Hexagon) :
  color (fst (drawHex P off mouse size wt dt h)) = color h.
Proof.
  unfold drawHex. destruct (offScreen P size _ _); simpl; [reflexivity |].
  rewrite updateHover_color, updateOscillation_color. reflexivity.
Qed.

Lemma Forall2_map_r {A B C : Type} (T : A -> C -> Prop) (f : B -> C)
    (l : list A) (k : list B) :
  Forall2 (fun a b => T a (f b)) l k -> Forall2 T l (map f k).
Proof. induction 1; simpl; constructor; assumption. Qed.

(** The cells of the engine after a frame, and the calls of the frame, in
    terms of the two passes. *)
Lemma animate_passes (P : Props) (t : R) (e : Engine) (g : Rng) :
  let dt := (t - lastTime e) / 1000 in
  let off := (fst (offsetRef e) + panSpeed P * dt * 60,
              snd (offsetRef e) + panSpeed P * dt * 60) in
  let wt := waveTimeRef e + dt * 0.5 in
  let wrapped := fst (mapM (wrapHex P off (canvasSize e)) (hexagonsRef e) g) in
  let drawn := map (drawHex P off (mouseRef e) (canvasSize e) wt dt) wrapped in
  hexagonsRef (fst (fst (animate P t e g))) = map fst drawn /\
  snd (fst (animate P t e g)) =
    ClearCanvas (fst (canvasSize e)) (snd (canvasSize e)) :: flat_map snd drawn.
Proof.
  unfold animate, bind. cbv zeta.
  destruct (mapM _ (hexagonsRef e) g) as [wrapped g']. simpl. split; reflexivity.
Qed.

Lemma animate_colors (P : Props) (t : R) (e : Engine) (g : Rng) :
  Forall2 (fun h h' => color h' = None \/ color h' = color h)
    (hexagonsRef e) (hexagonsRef (fst (fst (animate P t e g)))).
Proof.
  destruct (animate_passes P t e g) as [Hcells _]. cbv zeta in Hcells.
  rewrite Hcells, map_map.
  apply Forall2_map_r.
  set (off := (_, _)).
  assert (Hpost : post (fun _ => True)
            (mapM (wrapHex P off (canvasSize e)) (hexagonsRef e))
            (Forall2 (fun h h1 => color h1 = None \/ color h1 = color h) (hexagonsRef e))).
  { apply post_mapM. intros h g0 _. split; [apply wrapHex_color | intros n; exact I]. }
  destruct (Hpost g (fun _ => I)) as [HF _].
  eapply Forall2_impl; [exact HF |]. simpl. intros h h1 Hc.
  rewrite drawHex_color. exact Hc.
Qed.

(** C9.  A cell that the skip test of the draw pass finds outside the
    margin (screen x below [-hexWidth] or above [width + hexWidth], screen y
    below [-hexHeight] or above [height + hexHeight]) gets no draw call in
    that frame and leaves the draw pass as it entered it: after the frame it
    is exactly what the recycle pass made of it, and it is unchanged when
    the recycle pass did not wrap it. *)
Theorem skipped_cell_untouched (P : Props) (off mouse size : R * R) (wt dt : R)
    (h : Hexagon) (g : Rng) :
  let h1 := fst (wrapHex P off size h g) in
  (x h1 - fst off < - hexWidth P \/ x h1 - fst off > fst size + hexWidth P \/
   y h1 - snd off < - hexHeight P \/ y h1 - snd off > snd size + hexHeight P) ->
  drawHex P off mouse size wt dt h1 = (h1, []) /\
  fst (frameHex P off mouse size wt dt h g) = (h1, []) /\
  (wrapsX P off h = false -> wrapsY P off h = false ->
   fst (frameHex P off mouse size wt dt h g) = (h, [])).
Proof.
  intros h1 Hout. apply offScreen_true in Hout.
  assert (Hdraw : drawHex P off mouse size wt dt h1 = (h1, []))
    by (apply drawHex_offScreen; exact Hout).
  assert (Hframe : fst (frameHex P off mouse size wt dt h g) = (h1, [])).
  { unfold frameHex, bind, ret. subst h1.
    destruct (wrapHex P off size h g) as [hw gw]. simpl in *. exact Hdraw. }
  repeat split; try assumption.
  intros HX HY. rewrite Hframe. subst h1.
  rewrite (wrapHex_unwrapped P off size h g HX HY). reflexivity.
Qed.

Lemma sampleAbove_unwrapped :
  wrapsX defaultProps (0, 0) sampleAbove = false /\
  wrapsY defaultProps (0, 0) sampleAbove = false.
Proof.
  pose proof hexWidth_default as Hhw.
  split; [unfold wrapsX | unfold wrapsY]; apply Rltb_false; simpl.
  - lra.
  - unfold hexHeight; simpl. lra.
Qed.

Lemma skipped_cell_untouched_witness :
  fst (frameHex defaultProps (0, 0) (0, -100) (300, 300) 0 (1 / 60) sampleAbove
         (fun _ => 0.5)) = (sampleAbove, []).
Proof.
  destruct sampleAbove_unwrapped as [HX HY].
  destruct (skipped_cell_untouched defaultProps (0, 0) (0, -100) (300, 300) 0 (1 / 60)
              sampleAbove (fun _ => 0.5)) as (_ & _ & Hsame).
  - rewrite (wrapHex_unwrapped defaultProps (0, 0) (300, 300) sampleAbove _ HX HY).
    right; right; left. unfold hexHeight; simpl. lra.
  - exact (Hsame HX HY).
Defined.

(** C10.  A cell wrapped by the recycle pass, on either axis, leaves the
    pass with no colour and with [hoverOpacity] and [hoverTarget] 0, and the
    coordinate of an axis that did not wrap is unchanged.  No step of a
    frame gives a cell a colour: after [animate] every cell has no colour or
    the colour it had before the frame. *)
Theorem recycled_cell_reset (P : Props) (off size : R * R) (h : Hexagon) (g : Rng)
    (t : R) (e : Engine) :
  wrapsX P off h || wrapsY P off h = true ->
  let h' := fst (wrapHex P off size h g) in
  color h' = None /\ hoverOpacity h' = 0 /\ hoverTarget h' = 0 /\
  (wrapsX P off h = false -> x h' = x h) /\
  (wrapsY P off h = false -> y h' = y h) /\
  Forall2 (fun c c' => color c' = None \/ color c' = color c)
    (hexagonsRef e) (hexagonsRef (fst (fst (animate P t e g)))).
Proof.
  intros Hw h'. subst h'.
  destruct (wrapHex_reset P off size h g Hw) as (Hc & Ho & Ht).
  repeat split; try assumption.
  - intros HX. rewrite wrapHex_x, HX. reflexivity.
  - intros HY. rewrite wrapHex_y, HY. reflexivity.
  - apply animate_colors.
Qed.

Lemma recycled_cell_reset_witness :
  color (fst (wrapHex defaultProps (0, 0) (300, 300) sampleFarAbove (fun _ => 0.5))) = None /\
  x (fst (wrapHex defaultProps (0, 0) (300, 300) sampleFarAbove (fun _ => 0.5))) = 0.
Proof.
  pose proof hexWidth_default as Hhw.
  assert (HX : wrapsX defaultProps (0, 0) sampleFarAbove = false).
  { unfold wrapsX. apply Rltb_false. simpl. lra. }
  assert (HY : wrapsY defaultProps (0, 0) sampleFarAbove = true).
  { unfold wrapsY. apply Rltb_true. unfold hexHeight. simpl. lra. }
  destruct (recycled_cell_reset defaultProps (0, 0) (300, 300) sampleFarAbove
              (fun _ => 0.5) 16 sampleEngine) as (Hc & _ & _ & Hx & _).
  - rewrite HX, HY. reflexivity.
  - split; [exact Hc | exact (Hx HX)].
Defined.

(** ** Grid generation *)

Lemma draws_any (g : Rng) : draws anyDraw g.
Proof. intros n. exact I. Qed.

Lemma newHexagon_fresh (P : Props) (row col : Z) :
  post unitDraw (newHexagon P row col) (freshCell P).
Proof.
  intros g Hg.
  pose proof (Hg 0%nat) as H0. pose proof (Hg 1%nat) as H1.
  pose proof (Hg 2%nat) as H2. pose proof (Hg 3%nat) as H3.
  unfold unitDraw in *.
  unfold newHexagon, freshCell. rand_eval;
    (split; [| intros n; apply Hg]);
    repeat split; try reflexivity; try (intros; discriminate); try (intros; lra);
    try (left; repeat split; reflexivity);
    try (right; repeat split; simpl; try reflexivity; lra).
Qed.

Lemma newHexagon_dull (P : Props) (row col : Z) :
  staticHexChance P <= 0.002 ->
  post dullDraw (newHexagon P row col) (fun h => isInert h /\ opacity h = 0).
Proof.
  intros Hp g Hg.
  pose proof (Hg 0%nat) as H0. pose proof (Hg 1%nat) as H1.
  pose proof (Hg 2%nat) as H2.
  unfold dullDraw in *.
  unfold newHexagon, isInert. rand_eval;
    (split; [| intros n; apply Hg]);
    repeat split; try reflexivity; lra.
Qed.

Lemma concat_rows {A : Type} (Q : A -> Prop) (n : nat) (rs : list (list A)) :
  Forall (fun r => Forall Q r /\ length r = n) rs ->
  Forall Q (concat rs) /\ length (concat rs) = (length rs * n)%nat.
Proof.
  induction 1 as [| r rs [Hr Hn] _ [IHq IHn]]; simpl.
  - split; [constructor | reflexivity].
  - split.
    + apply Forall_app. split; assumption.
    + rewrite length_app, IHn, Hn. reflexivity.
Qed.

Lemma gridRow_post (P : Props) (D : R -> Prop) (Q : Hexagon -> Prop) (cols row : Z) :
  (forall r c, post D (newHexagon P r c) Q) ->
  post D (gridRow P cols row)
    (fun hs => Forall Q hs /\ length hs = Z.to_nat (cols + 1)).
Proof.
  intros Hnew. unfold gridRow.
  eapply post_weaken.
  - apply (post_mapM D (newHexagon P row) (fun _ h => Q h)). intros c. apply Hnew.
  - simpl. intros hs HF. split.
    + eapply Forall2_right; exact HF.
    + rewrite (Forall2_same_length _ _ _ HF). apply length_loopRange.
Qed.

Lemma baseGrid_post (P : Props) (D : R -> Prop) (Q : Hexagon -> Prop) (rows cols : Z) :
  (forall r c, post D (newHexagon P r c) Q) ->
  post D (baseGrid P rows cols)
    (fun hs => Forall Q hs /\
               length hs = (Z.to_nat (rows + 1) * Z.to_nat (cols + 1))%nat).
Proof.
  intros Hnew. unfold baseGrid.
  eapply post_bind.
  - apply (post_mapM D (gridRow P cols)
             (fun _ hs => Forall Q hs /\ length hs = Z.to_nat (cols + 1))).
    intros r. apply gridRow_post. exact Hnew.
  - simpl. intros rs HF. apply post_ret.
    rewrite <- (length_loopRange rows), <- (Forall2_same_length _ _ _ HF).
    apply concat_rows. eapply Forall2_right; exact HF.
Qed.

Lemma newHexagon_any (P : Props) (row col : Z) :
  post anyDraw (newHexagon P row col) (fun _ => True).
Proof. intros g _. split; [exact I | apply draws_any]. Qed.

Lemma baseGrid_length (P : Props) (rows cols : Z) (g : Rng) :
  length (fst (baseGrid P rows cols g)) =
    (Z.to_nat (rows + 1) * Z.to_nat (cols + 1))%nat.
Proof.
  apply (baseGrid_post P anyDraw (fun _ => True) rows cols (newHexagon_any P) g).
  apply draws_any.
Qed.

(** The highlight pass never changes the number of cells. *)
Lemma highlightNeighbor_length (n : nat) (total idx : Z) (c : Color) (j : Z)
    (st : Tinted) :
  length (fst st) = n ->
  post anyDraw (highlightNeighbor total idx c j st) (fun st' => length (fst st') = n).
Proof.
  intros Hn g _. split; [| apply draws_any].
  unfold highlightNeighbor. destruct st as [hs colored]. unfold bind, random, ret.
  simpl. destruct (_ && _ && _); simpl; [rewrite length_alter |]; exact Hn.
Qed.

Lemma highlightSeed_length (n : nat) (total : Z) (st : Tinted) :
  length (fst st) = n ->
  post anyDraw (highlightSeed total st) (fun st' => length (fst st') = n).
Proof.
  intros Hn g _. split; [| apply draws_any].
  unfold highlightSeed. destruct st as [hs colored]. unfold bind, random at 1, ret.
  cbv zeta. cbn [fst snd]. destruct (bool_decide _); [exact Hn |].
  unfold random, ret. cbn [fst snd].
  match goal with
  | |- context [foldM ?f ?l ?s ?g'] =>
      apply (post_foldM anyDraw f (fun st' => length (fst st') = n) l
               (fun a0 s0 Hs0 => highlightNeighbor_length n _ _ _ a0 s0 Hs0) s);
      [simpl; rewrite length_alter; exact Hn | apply draws_any]
  end.
Qed.

Lemma initializeGrid_length (P : Props) (width height : R) (g : Rng) :
  length (fst (initializeGrid P width height g)) =
    (Z.to_nat (Zceil (height / verticalSpacing P) + 3)
     * Z.to_nat (Zceil (width / hexWidth P) + 3))%nat.
Proof.
  unfold initializeGrid. cbv zeta. unfold bind at 1.
  pose proof (baseGrid_length P (Zceil (height / verticalSpacing P) + 2)
                (Zceil (width / hexWidth P) + 2) g) as Hbase.
  destruct (baseGrid P _ _ g) as [hs g1]. cbn [fst] in Hbase.
  unfold bind.
  match goal with
  | |- context [foldM ?f ?l ?s g1] =>
      pose proof (post_foldM anyDraw f (fun st' => length (fst st') = length hs) l
                    (fun a0 s0 Hs0 => highlightSeed_length (length hs) _ s0 Hs0) s
                    eq_refl g1 (draws_any g1)) as [Hlen _];
      destruct (foldM f l s g1) as [st g2]
  end.
  unfold ret. cbn [fst] in *. rewrite Hlen, Hbase.
  replace (Zceil (height / verticalSpacing P) + 2 + 1)%Z
    with (Zceil (height / verticalSpacing P) + 3)%Z by lia.
  replace (Zceil (width / hexWidth P) + 2 + 1)%Z
    with (Zceil (width / hexWidth P) + 3)%Z by lia.
  reflexivity.
Qed.

Lemma newHexagon_position (P : Props) (row col : Z) (g : Rng) :
  position (fst (newHexagon P row col g)) = slotCentre P row col.
Proof. unfold newHexagon, position, slotCentre. rand_eval; reflexivity. Qed.

Lemma Forall2_map_eq {A B C : Type} (f : B -> C) (k : A -> C)
    (l : list A) (l' : list B) :
  Forall2 (fun a b => f b = k a) l l' -> map f l' = map k l.
Proof. induction 1; simpl; congruence. Qed.

Lemma baseGrid_positions (P : Props) (rows cols : Z) (g : Rng) :
  map position (fst (baseGrid P rows cols g)) = slotCentres P rows cols.
Proof.
  assert (Hrow : forall row,
    post anyDraw (gridRow P cols row)
      (fun hs => map position hs = map (slotCentre P row) (loopRange cols))).
  { intros row. unfold gridRow. eapply post_weaken.
    - apply (post_mapM anyDraw (newHexagon P row)
               (fun col h => position h = slotCentre P row col)).
      intros col g0 _. split; [apply newHexagon_position | apply draws_any].
    - simpl. intros hs HF. apply Forall2_map_eq. exact HF. }
  assert (Hgrid :
    post anyDraw (baseGrid P rows cols)
      (fun hs => map position hs = slotCentres P rows cols)).
  { unfold baseGrid. eapply post_bind.
    - apply (post_mapM anyDraw (gridRow P cols)
               (fun row hs => map position hs = map (slotCentre P row) (loopRange cols))).
      exact Hrow.
    - simpl. intros rs HF. apply post_ret.
      unfold slotCentres. rewrite concat_map, flat_map_concat_map.
      f_equal. apply Forall2_map_eq. exact HF. }
  apply (Hgrid g (draws_any g)).
Qed.

Lemma map_position_alter (c : Color) (o : R) (i : nat) (hs : list Hexagon) :
  map position (alter (tint c o) i hs) = map position hs.
Proof.
  revert i. induction hs as [| h hs IH]; intros [| i]; simpl; try reflexivity.
  f_equal. apply IH.
Qed.

Lemma highlightNeighbor_positions (ps : list (R * R)) (total idx : Z) (c : Color)
    (j : Z) (st : Tinted) :
  map position (fst st) = ps ->
  post anyDraw (highlightNeighbor total idx c j st)
    (fun st' => map position (fst st') = ps).
Proof.
  intros Hps g _. split; [| apply draws_any].
  unfold highlightNeighbor. destruct st as [hs colored]. unfold bind, random, ret.
  simpl. destruct (_ && _ && _); simpl; [rewrite map_position_alter |]; exact Hps.
Qed.

Lemma highlightSeed_positions (ps : list (R * R)) (total : Z) (st : Tinted) :
  map position (fst st) = ps ->
  post anyDraw (highlightSeed total st) (fun st' => map position (fst st') = ps).
Proof.
  intros Hps g _. split; [| apply draws_any].
  unfold highlightSeed. destruct st as [hs colored]. unfold bind, random at 1, ret.
  cbv zeta. cbn [fst snd]. destruct (bool_decide _); [exact Hps |].
  unfold random, ret. cbn [fst snd].
  match goal with
  | |- context [foldM ?f ?l ?s ?g'] =>
      apply (post_foldM anyDraw f (fun st' => map position (fst st') = ps) l
               (fun a0 s0 Hs0 => highlightNeighbor_positions ps _ _ _ a0 s0 Hs0) s);
      [simpl; rewrite map_position_alter; exact Hps | apply draws_any]
  end.
Qed.

(** The cells of the generated grid sit on the slots of the rows
    [-1 .. rows - 1] and the columns [-1 .. cols - 1], row after row. *)
Lemma initializeGrid_positions (P : Props) (width height : R) (g : Rng) :
  map position (fst (initializeGrid P width height g)) =
    slotCentres P (Zceil (height / verticalSpacing P) + 2)
                  (Zceil (width / hexWidth P) + 2).
Proof.
  unfold initializeGrid. cbv zeta. unfold bind at 1.
  pose proof (baseGrid_positions P (Zceil (height / verticalSpacing P) + 2)
                (Zceil (width / hexWidth P) + 2) g) as Hbase.
  destruct (baseGrid P _ _ g) as [hs g1]. cbn [fst] in Hbase.
  unfold bind.
  match goal with
  | |- context [foldM ?f ?l ?s g1] =>
      pose proof (post_foldM anyDraw f
                    (fun st' => map position (fst st') = map position hs) l
                    (fun a0 s0 Hs0 => highlightSeed_positions _ _ s0 Hs0) s
                    eq_refl g1 (draws_any g1)) as [Hpos _];
      destruct (foldM f l s g1) as [st g2]
  end.
  unfold ret. cbn [fst] in *. rewrite Hpos. exact Hbase.
Qed.

(** The index of a highlight seed is a valid index of the array, so the
    assignment [hexagons[idx].color = color] never throws. *)
Lemma seed_index_in_range (r : R) (total : Z) :
  0 <= r < 1 -> (0 < total)%Z ->
  (0 <= Zfloor (r * IZR total) < total)%Z.
Proof.
  intros [Hr0 Hr1] Ht.
  apply IZR_lt in Ht.
  pose proof (Zfloor_bound (r * IZR total)) as [Hlo Hhi].
  split.
  - apply Zfloor_lub. simpl. nra.
  - apply lt_IZR. nra.
Qed.

Lemma seeds_need_cells (total : Z) :
  (0 < Zfloor (IZR total * 0.01))%Z -> (0 < total)%Z.
Proof.
  intros Hseeds. apply IZR_lt in Hseeds.
  pose proof (Zfloor_bound (IZR total * 0.01)) as [Hlo _].
  apply lt_IZR. lra.
Qed.

(** C5, as the code has it.  For a viewport of non-negative width and
    height and a positive cell size, the generated grid has
    [(ceil(W / hexWidth) + 3) * (ceil(H / verticalSpacing) + 3)] cells, and
    they sit, row after row, on the slots of the rows
    [-1 .. ceil(H / verticalSpacing) + 1] and the columns
    [-1 .. ceil(W / hexWidth) + 1]: one row and one column of negative
    margin. *)
Theorem grid_count (P : Props) (W H : R) (g : Rng) :
  0 < hexSize P -> 0 <= W -> 0 <= H ->
  Z.of_nat (length (fst (initializeGrid P W H g))) =
    ((Zceil (W / hexWidth P) + 3) * (Zceil (H / verticalSpacing P) + 3))%Z /\
  map position (fst (initializeGrid P W H g)) =
    flat_map (fun row =>
                map (slotCentre P row) (seqZ (-1) (Zceil (W / hexWidth P) + 3)))
             (seqZ (-1) (Zceil (H / verticalSpacing P) + 3)).
Proof.
  intros Hs HW HH. split.
  2: { rewrite initializeGrid_positions. unfold slotCentres, loopRange.
       replace (Zceil (H / verticalSpacing P) + 2 + 1)%Z
         with (Zceil (H / verticalSpacing P) + 3)%Z by lia.
       replace (Zceil (W / hexWidth P) + 2 + 1)%Z
         with (Zceil (W / hexWidth P) + 3)%Z by lia.
       reflexivity. }
  rewrite initializeGrid_length.
  assert (Hc : (0 <= Zceil (W / hexWidth P))%Z).
  { apply Zceil_nonneg. apply Rle_mult_inv_pos; [exact HW | apply hexWidth_pos, Hs]. }
  assert (Hr : (0 <= Zceil (H / verticalSpacing P))%Z).
  { apply Zceil_nonneg. apply Rle_mult_inv_pos; [exact HH |].
    unfold verticalSpacing, hexHeight. lra. }
  lia.
Qed.

Lemma grid_count_witness :
  Z.of_nat (length (fst (initializeGrid defaultProps 300 300 (fun _ => 0.5)))) = 90%Z.
Proof.
  destruct (grid_count defaultProps 300 300 (fun _ => 0.5)) as [Hcount _].
  - simpl; lra.
  - lra.
  - lra.
  - rewrite Hcount.
    rewrite (Zceil_300_hexWidth defaultProps eq_refl).
    rewrite (Zceil_300_verticalSpacing defaultProps eq_refl). reflexivity.
Defined.

(** C5, as stated, fails: for the default props and a 300 x 300 viewport
    the grid has 90 cells, not [(6 + 2) * (7 + 2) = 72]. *)
Lemma viewport_300_has_90_cells :
  Z.of_nat (length (fst (initializeGrid defaultProps 300 300 (fun _ => 0.5)))) <>
    ((Zceil (300 / hexWidth defaultProps) + 2)
     * (Zceil (300 / verticalSpacing defaultProps) + 2))%Z.
Proof.
  rewrite initializeGrid_length.
  rewrite (Zceil_300_hexWidth defaultProps eq_refl).
  rewrite (Zceil_300_verticalSpacing defaultProps eq_refl).
  discriminate.
Qed.

(** On a 300 x 300 viewport with cell size 30 the grid has 90 cells, the
    highlight pass has [floor(90 * 0.01) = 0] seeds to place, and the grid
    is the one the two nested loops built. *)
Lemma initializeGrid_300 (P : Props) (g : Rng) :
  hexSize P = 30 ->
  fst (initializeGrid P 300 300 g) = fst (baseGrid P 9 8 g) /\
  length (fst (baseGrid P 9 8 g)) = 90%nat.
Proof.
  intros Hs.
  pose proof (baseGrid_length P 9 8 g) as Hlen.
  change (Z.to_nat (9 + 1) * Z.to_nat (8 + 1))%nat with 90%nat in Hlen.
  split; [| exact Hlen].
  unfold initializeGrid. cbv zeta.
  rewrite (Zceil_300_hexWidth P Hs), (Zceil_300_verticalSpacing P Hs).
  change (7 + 2)%Z with 9%Z. change (6 + 2)%Z with 8%Z.
  unfold bind at 1. destruct (baseGrid P 9 8 g) as [hs g1]. cbn [fst] in *.
  rewrite Hlen.
  assert (Hcount : Zfloor (IZR (Z.of_nat 90) * 0.01) = 0%Z).
  { apply Zfloor_eq. change (Z.of_nat 90) with 90%Z. lra. }
  rewrite Hcount. reflexivity.
Qed.

(** C2, as the code has it.  On a 300 x 300 viewport with cell size 30 and
    special-behaviour probability 0, for every outcome of the draws no cell
    is hover-enabled or coloured, every cell has hover opacity and target 0,
    and every cell is either inert with opacity 0 or exactly one of
    oscillating and static with an opacity in [0.05, 0.4); every cell is
    inert with opacity 0 when no draw falls below 0.002. *)
Theorem zero_chance_grid (P : Props) (g : Rng) :
  hexSize P = 30 ->
  staticHexChance P = 0 ->
  validRng g ->
  Forall (fun h =>
            shouldHover h = false /\ color h = None /\
            hoverOpacity h = 0 /\ hoverTarget h = 0 /\
            ((shouldOscillate h = false /\ isStatic h = false /\ opacity h = 0) \/
             (xorb (shouldOscillate h) (isStatic h) = true /\ 0.05 <= opacity h < 0.4)))
         (fst (initializeGrid P 300 300 g)) /\
  ((forall n, 0.002 <= g n) ->
   Forall (fun h => isInert h /\ opacity h = 0) (fst (initializeGrid P 300 300 g))).
Proof.
  intros Hs Hp Hg.
  destruct (initializeGrid_300 P g Hs) as [Hgrid _]. rewrite Hgrid.
  split.
  - destruct (baseGrid_post P unitDraw (freshCell P) 9 8 (newHexagon_fresh P) g Hg)
      as [[HF _] _].
    eapply Forall_impl; [exact HF |]. simpl.
    intros h (Hc & Ho & Ht & Hh & Hshape).
    repeat split; try assumption.
    destruct (shouldHover h); [| reflexivity].
    specialize (Hh eq_refl). lra.
  - intros Hdull.
    assert (Hp' : staticHexChance P <= 0.002) by lra.
    assert (Hg' : draws dullDraw g).
    { intros n. split; [apply Hdull | apply Hg]. }
    destruct (baseGrid_post P dullDraw _ 9 8
                (fun r c => newHexagon_dull P r c Hp') g Hg') as [[HF _] _].
    exact HF.
Qed.

Lemma zero_chance_grid_witness :
  Forall (fun h => isInert h /\ opacity h = 0)
    (fst (initializeGrid zeroChanceProps 300 300 (fun _ => 0.5))).
Proof.
  destruct (zero_chance_grid zeroChanceProps (fun _ => 0.5)) as [_ Hinert].
  - reflexivity.
  - reflexivity.
  - intros n. lra.
  - apply Hinert. intros n. lra.
Defined.

Lemma newHexagon_zero (P : Props) (row col : Z) :
  post zeroDraw (newHexagon P row col)
    (fun h => shouldOscillate h = true /\ opacity h = 0.05).
Proof.
  intros g Hg.
  pose proof (Hg 0%nat) as H0. pose proof (Hg 1%nat) as H1.
  pose proof (Hg 2%nat) as H2.
  unfold zeroDraw in *.
  unfold newHexagon. rand_eval;
    (split; [| intros n; apply Hg]); split; try reflexivity; lra.
Qed.

(** C2, as stated, fails: when the draws are all 0 (a value [Math.random]
    may return) every cell oscillates, with opacity 0.05, although the
    special-behaviour probability is 0. *)
Lemma all_zero_draws_oscillate :
  validRng (fun _ => 0) /\
  ~ Forall (fun h => isInert h /\ opacity h = 0)
      (fst (initializeGrid zeroChanceProps 300 300 (fun _ => 0))).
Proof.
  split; [intros n; lra |].
  destruct (initializeGrid_300 zeroChanceProps (fun _ => 0) eq_refl) as [Hgrid Hlen].
  rewrite Hgrid.
  assert (Hz : draws zeroDraw (fun _ : nat => 0)) by (intros n; reflexivity).
  destruct (baseGrid_post zeroChanceProps zeroDraw _ 9 8
              (newHexagon_zero zeroChanceProps) _ Hz) as [[HF _] _].
  destruct (fst (baseGrid zeroChanceProps 9 8 (fun _ => 0))) as [| h hs];
    [discriminate |].
  intros Hall.
  inversion HF as [| ? ? [Hosc _] _]; subst.
  inversion Hall as [| ? ? [(_ & Hno & _) _] _]; subst.
  congruence.
Qed.

(** ** Invariants of the engine *)

Lemma Forall2_transport {A : Type} (Q : A -> Prop) (l l' : list A) :
  Forall2 (fun a b => Q a -> Q b) l l' -> Forall Q l -> Forall Q l'.
Proof.
  induction 1 as [| a b l l' Hab _ IH]; intros HQ; [constructor |].
  inversion HQ; subst. constructor; auto.
Qed.

Lemma Forall_map_intro {A B : Type} (Q : B -> Prop) (f : A -> B) (l : list A) :
  Forall (fun a => Q (f a)) l -> Forall Q (map f l).
Proof. induction 1; simpl; constructor; assumption. Qed.

Lemma tint_opacityOK (c : Color) (r : R) (h : Hexagon) :
  0 <= r < 1 -> opacityOK (tint c (0.05 + r * 0.35) h).
Proof. intros Hr. unfold opacityOK, inBand. simpl. split; [| intros _]; lra. Qed.

Lemma freshCell_opacityOK (P : Props) (h : Hexagon) : freshCell P h -> opacityOK h.
Proof.
  intros (_ & _ & _ & _ & [(Hosc & _ & Ho) | (_ & Ho)]); unfold opacityOK, inBand.
  - rewrite Hosc, Ho. split; [lra | discriminate].
  - split; [| intros _]; lra.
Qed.

Lemma reroll_opacityOK (P : Props) (h : Hexagon) :
  post unitDraw (reroll P h) opacityOK.
Proof.
  intros g Hg.
  pose proof (Hg 0%nat) as H0. pose proof (Hg 1%nat) as H1.
  pose proof (Hg 2%nat) as H2.
  unfold unitDraw in *.
  unfold reroll, opacityOK, inBand. rand_eval;
    (split; [| intros n; apply Hg]);
    (split; [lra | intros Hosc; try discriminate; lra]).
Qed.

Lemma wrapHex_opacityOK (P : Props) (off size : R * R) (h : Hexagon) :
  post unitDraw (wrapHex P off size h) (fun h' => opacityOK h -> opacityOK h').
Proof.
  unfold wrapHex.
  eapply post_bind with (Q1 := fun h1 => opacityOK h -> opacityOK h1).
  - destruct (wrapsX P off h).
    + eapply post_weaken; [apply reroll_opacityOK | auto].
    + apply post_ret. auto.
  - intros h1 H1. destruct (wrapsY P off h).
    + eapply post_weaken; [apply reroll_opacityOK | auto].
    + apply post_ret. exact H1.
Qed.

Lemma updateOscillation_opacityOK (dt : R) (h : Hexagon) :
  opacityOK h -> opacityOK (updateOscillation dt h).
Proof.
  intros HOK. destruct (shouldOscillate h) eqn:Hosc.
  - pose proof (updateOscillation_band dt h Hosc) as Hband.
    unfold opacityOK, inBand in *. split; [lra | intros _; exact Hband].
  - rewrite (updateOscillation_idle dt h Hosc). exact HOK.
Qed.

Lemma updateHover_opacityOK (P : Props) (mouse : R * R) (sx sy dt : R) (h : Hexagon) :
  opacityOK h -> opacityOK (updateHover P mouse sx sy dt h).
Proof. unfold updateHover. destruct (shouldHover h); auto. Qed.

Lemma drawHex_opacityOK (P : Props) (off mouse size : R * R) (wt dt : R) (h : Hexagon) :
  opacityOK h -> opacityOK (fst (drawHex P off mouse size wt dt h)).
Proof.
  intros HOK. unfold drawHex. destruct (offScreen P size _ _); simpl; [exact HOK |].
  apply updateHover_opacityOK, updateOscillation_opacityOK, HOK.
Qed.

(** One frame keeps every opacity in [0, 0.4] and every oscillating cell in
    the band, whatever the time of the frame. *)
Lemma animate_opacityOK (P : Props) (t : R) (e : Engine) :
  Forall opacityOK (hexagonsRef e) ->
  post unitDraw (animate P t e) (fun r => Forall opacityOK (hexagonsRef (fst r))).
Proof.
  intros HOK. unfold animate. cbv zeta.
  eapply post_bind.
  - apply post_mapM. intros h. apply wrapHex_opacityOK.
  - simpl. intros wrapped HF. apply post_ret. simpl.
    pose proof (Forall2_transport opacityOK _ _ HF HOK) as Hw.
    rewrite map_map. apply Forall_map_intro.
    eapply Forall_impl; [exact Hw |]. simpl. intros h1 H1.
    apply drawHex_opacityOK. exact H1.
Qed.

(** ... and so does any run of frames. *)
Lemma animateAll_opacityOK (P : Props) (times : list R) :
  forall e : Engine,
  Forall opacityOK (hexagonsRef e) ->
  post unitDraw (animateAll P times e) (fun r => Forall opacityOK (hexagonsRef (fst r))).
Proof.
  induction times as [| t ts IH]; intros e HOK; simpl.
  - apply post_ret. exact HOK.
  - eapply post_bind; [apply animate_opacityOK; exact HOK |].
    simpl. intros r Hr.
    eapply post_bind; [apply IH; exact Hr |].
    simpl. intros r' Hr'. apply post_ret. exact Hr'.
Qed.

Lemma highlightNeighbor_opacityOK (total idx : Z) (c : Color) (j : Z) (st : Tinted) :
  Forall opacityOK (fst st) ->
  post unitDraw (highlightNeighbor total idx c j st)
    (fun st' => Forall opacityOK (fst st')).
Proof.
  intros HOK. unfold highlightNeighbor. destruct st as [hs colored].
  eapply post_bind; [apply post_random |]. simpl. intros r Hr.
  destruct (_ && _ && _).
  - eapply post_bind; [apply post_random |]. simpl. intros ro Hro.
    apply post_ret. simpl. apply Forall_alter; [exact HOK |].
    intros h _ _. apply tint_opacityOK. exact Hro.
  - apply post_ret. exact HOK.
Qed.

Lemma highlightSeed_opacityOK (total : Z) (st : Tinted) :
  Forall opacityOK (fst st) ->
  post unitDraw (highlightSeed total st) (fun st' => Forall opacityOK (fst st')).
Proof.
  intros HOK. unfold highlightSeed. destruct st as [hs colored].
  eapply post_bind; [apply post_random |]. simpl. intros r Hr.
  destruct (bool_decide _); [apply post_ret; exact HOK |].
  eapply post_bind; [apply post_random |]. simpl. intros rc Hrc.
  eapply post_bind; [apply post_random |]. simpl. intros ro Hro.
  eapply post_bind; [apply post_random |]. simpl. intros rn Hrn.
  apply post_foldM.
  - intros j s Hs. apply highlightNeighbor_opacityOK. exact Hs.
  - simpl. apply Forall_alter; [exact HOK |].
    intros h _ _. apply tint_opacityOK. exact Hro.
Qed.

(** Every generated grid satisfies the invariant. *)
Lemma initializeGrid_opacityOK (P : Props) (width height : R) :
  post unitDraw (initializeGrid P width height) (Forall opacityOK).
Proof.
  unfold initializeGrid. cbv zeta.
  eapply post_bind.
  - apply (baseGrid_post P unitDraw (freshCell P) _ _ (newHexagon_fresh P)).
  - simpl. intros hs [HF _].
    eapply post_bind.
    + apply (post_foldM unitDraw _ (fun st => Forall opacityOK (fst st))).
      * intros _ s Hs. apply highlightSeed_opacityOK. exact Hs.
      * simpl. eapply Forall_impl; [exact HF |]. apply freshCell_opacityOK.
    + simpl. intros st Hst. apply post_ret. exact Hst.
Qed.

(** ** Convergence of the hover ease at a steady frame rate *)

Lemma gapFactor_repeat (P : Props) (f : HoverFrame) (n : nat) :
  gapFactor P (List.repeat f n) = (1 - easeFactor P f) ^ n.
Proof.
  induction n as [| n IH]; simpl; [reflexivity |].
  unfold gapFactor in *. simpl. rewrite IH. reflexivity.
Qed.

Lemma Forall_repeat {A : Type} (Q : A -> Prop) (a : A) (n : nat) :
  Q a -> Forall Q (List.repeat a n).
Proof. intros Ha. induction n; simpl; constructor; assumption. Qed.

(** X24.  With the pointer held inside a hover-enabled cell, starting from
    hover opacity 0, and equal frames whose ease fraction
    [hoverDelay * 0.5 * deltaTime * 60] is in (0, 1], the hover opacity
    tends to 0.8 as the frames go by. *)
Lemma hover_hold_converges (P : Props) (f : HoverFrame) (h : Hexagon) :
  shouldHover h = true ->
  hoverOpacity h = 0 ->
  held P f ->
  0 < easeFactor P f <= 1 ->
  Un_cv (fun n => List.last (hoverTrace P (List.repeat f n) h) 0) 0.8.
Proof.
  intros Hh H0 Hheld [Hk0 Hk1] eps Heps.
  assert (Habs : Rabs (1 - easeFactor P f) < 1) by (apply Rabs_def1; lra).
  destruct (pow_lt_1_zero (1 - easeFactor P f) Habs eps Heps) as [N HN].
  exists N. intros n Hn.
  assert (Hle : hoverOpacity h <= 0.8) by lra.
  destruct (hoverTrace_held P (List.repeat f n) h Hh Hle
              (Forall_repeat _ f n Hheld)
              (Forall_repeat (fun f0 => 0 <= easeFactor P f0 <= 1) f n
                 (conj (Rlt_le _ _ Hk0) Hk1)))
    as (_ & _ & Hgap).
  rewrite H0, gapFactor_repeat in Hgap.
  unfold R_dist.
  replace (List.last (hoverTrace P (List.repeat f n) h) 0 - 0.8)
    with (- (0.8 * (1 - easeFactor P f) ^ n)) by lra.
  rewrite Rabs_Ropp, Rabs_mult, (Rabs_pos_eq 0.8) by lra.
  specialize (HN n Hn).
  pose proof (Rabs_pos ((1 - easeFactor P f) ^ n)). nra.
Qed.

(** * Further properties of the component *)

(** ** The hexagon of [getHexagonVertices] *)

Lemma vertex_trig :
  (cos (PI / 3 * INR 0 - PI / 6) = sqrt 3 / 2 /\ sin (PI / 3 * INR 0 - PI / 6) = - (1 / 2)) /\
  (cos (PI / 3 * INR 1 - PI / 6) = sqrt 3 / 2 /\ sin (PI / 3 * INR 1 - PI / 6) = 1 / 2) /\
  (cos (PI / 3 * INR 2 - PI / 6) = 0 /\ sin (PI / 3 * INR 2 - PI / 6) = 1) /\
  (cos (PI / 3 * INR 3 - PI / 6) = - (sqrt 3 / 2) /\ sin (PI / 3 * INR 3 - PI / 6) = 1 / 2) /\
  (cos (PI / 3 * INR 4 - PI / 6) = - (sqrt 3 / 2) /\ sin (PI / 3 * INR 4 - PI / 6) = - (1 / 2)) /\
  (cos (PI / 3 * INR 5 - PI / 6) = 0 /\ sin (PI / 3 * INR 5 - PI / 6) = - 1).
Proof.
  repeat split.
  - replace (PI / 3 * INR 0 - PI / 6) with (- (PI / 6)) by (simpl; lra).
    rewrite cos_neg. apply cos_PI6.
  - replace (PI / 3 * INR 0 - PI / 6) with (- (PI / 6)) by (simpl; lra).
    rewrite sin_neg, sin_PI6. reflexivity.
  - replace (PI / 3 * INR 1 - PI / 6) with (PI / 6) by (simpl; lra). apply cos_PI6.
  - replace (PI / 3 * INR 1 - PI / 6) with (PI / 6) by (simpl; lra). apply sin_PI6.
  - replace (PI / 3 * INR 2 - PI / 6) with (PI / 2) by (simpl; lra). apply cos_PI2.
  - replace (PI / 3 * INR 2 - PI / 6) with (PI / 2) by (simpl; lra). apply sin_PI2.
  - replace (PI / 3 * INR 3 - PI / 6) with (- (PI / 6) + PI) by (simpl; lra).
    rewrite neg_cos, cos_neg, cos_PI6. reflexivity.
  - replace (PI / 3 * INR 3 - PI / 6) with (- (PI / 6) + PI) by (simpl; lra).
    rewrite neg_sin, sin_neg, sin_PI6. lra.
  - replace (PI / 3 * INR 4 - PI / 6) with (PI / 6 + PI) by (simpl; lra).
    rewrite neg_cos, cos_PI6. reflexivity.
  - replace (PI / 3 * INR 4 - PI / 6) with (PI / 6 + PI) by (simpl; lra).
    rewrite neg_sin, sin_PI6. reflexivity.
  - replace (PI / 3 * INR 5 - PI / 6) with (PI / 2 + PI) by (simpl; lra).
    rewrite neg_cos, cos_PI2. lra.
  - replace (PI / 3 * INR 5 - PI / 6) with (PI / 2 + PI) by (simpl; lra).
    rewrite neg_sin, sin_PI2. reflexivity.
Qed.

Lemma hexagon_corner_list (cx cy size : R) :
  getHexagonVertices cx cy size =
    [ (cx + size * (sqrt 3 / 2), cy + size * - (1 / 2));
      (cx + size * (sqrt 3 / 2), cy + size * (1 / 2));
      (cx + size * 0, cy + size * 1);
      (cx + size * - (sqrt 3 / 2), cy + size * (1 / 2));
      (cx + size * - (sqrt 3 / 2), cy + size * - (1 / 2));
      (cx + size * 0, cy + size * - 1) ].
Proof.
  destruct vertex_trig as ((c0 & s0) & (c1 & s1) & (c2 & s2) & (c3 & s3) & (c4 & s4) & (c5 & s5)).
  unfold getHexagonVertices. cbn [seq map].
  rewrite c0, s0, c1, s1, c2, s2, c3, s3, c4, s4, c5, s5. reflexivity.
Qed.

(** X1.  [getHexagonVertices] returns the six corners of the pointy-top
    regular hexagon of circumradius [size], starting at the upper right
    corner (the canvas y axis points down) and going round through the
    bottom corner: its bounding box is [size * sqrt 3] wide and [2 * size]
    high. *)
Theorem getHexagonVertices_corners (cx cy size : R) :
  getHexagonVertices cx cy size =
    [ (cx + size * (sqrt 3 / 2), cy + size * - (1 / 2));
      (cx + size * (sqrt 3 / 2), cy + size * (1 / 2));
      (cx + size * 0, cy + size * 1);
      (cx + size * - (sqrt 3 / 2), cy + size * (1 / 2));
      (cx + size * - (sqrt 3 / 2), cy + size * - (1 / 2));
      (cx + size * 0, cy + size * - 1) ].
Proof.
  destruct vertex_trig as ((c0 & s0) & (c1 & s1) & (c2 & s2) & (c3 & s3) & (c4 & s4) & (c5 & s5)).
  unfold getHexagonVertices. cbn [seq map].
  rewrite c0, s0, c1, s1, c2, s2, c3, s3, c4, s4, c5, s5. reflexivity.
Qed.

Lemma corner_eq (P : Props) (row col : Z) :
  let cx := fst (slotCentre P row col) in
  let cy := snd (slotCentre P row col) in
  let s := hexSize P in
  corner P row col 0 = (cx + s * (sqrt 3 / 2), cy + s * - (1 / 2)) /\
  corner P row col 1 = (cx + s * (sqrt 3 / 2), cy + s * (1 / 2)) /\
  corner P row col 2 = (cx + s * 0, cy + s * 1) /\
  corner P row col 3 = (cx + s * - (sqrt 3 / 2), cy + s * (1 / 2)) /\
  corner P row col 4 = (cx + s * - (sqrt 3 / 2), cy + s * - (1 / 2)) /\
  corner P row col 5 = (cx + s * 0, cy + s * - 1).
Proof.
  cbv zeta. unfold corner. rewrite hexagon_corner_list.
  repeat split; reflexivity.
Qed.

(** X2.  The slots tile the plane without gaps: the hexagon of a slot
    shares its right edge (corners 0 and 1) with the left edge (corners 4
    and 3) of the next slot of its row, and its lower right edge (corners 1
    and 2) with the upper left edge (corners 5 and 4) of a slot of the next
    row: the slot of the same column when the half-width shift grows by
    one from this row to the next (rows -1 and 0, 2, 4, ...), the slot of
    the next column when it drops from one to zero (rows 1, 3, ...). *)
Theorem neighbouring_slots_share_edges (P : Props) (row col : Z) :
  (corner P row col 0 = corner P row (col + 1) 4 /\
   corner P row col 1 = corner P row (col + 1) 3) /\
  (Z.rem (row + 1) 2 - Z.rem row 2 = 1 ->
   corner P row col 1 = corner P (row + 1) col 5 /\
   corner P row col 2 = corner P (row + 1) col 4)%Z /\
  (Z.rem row 2 = 1 /\ Z.rem (row + 1) 2 = 0 ->
   corner P row col 1 = corner P (row + 1) (col + 1) 5 /\
   corner P row col 2 = corner P (row + 1) (col + 1) 4)%Z.
Proof.
  pose proof (corner_eq P row col) as (a0 & a1 & a2 & a3 & a4 & a5).
  pose proof (corner_eq P row (col + 1)) as (b0 & b1 & b2 & b3 & b4 & b5).
  pose proof (corner_eq P (row + 1) col) as (c0 & c1 & c2 & c3 & c4 & c5).
  pose proof (corner_eq P (row + 1) (col + 1)) as (d0 & d1 & d2 & d3 & d4 & d5).
  cbv zeta in *.
  rewrite a0, a1, a2, b3, b4, c4, c5, d4, d5.
  unfold slotCentre, verticalSpacing, hexHeight, hexWidth. cbn [fst snd].
  rewrite !plus_IZR.
  split; [| split].
  - split; f_equal; lra.
  - intros Hshift.
    assert (Hr : IZR (Z.rem (row + 1) 2) = IZR (Z.rem row 2) + 1).
    { rewrite <- plus_IZR. f_equal. lia. }
    rewrite Hr. split; f_equal; lra.
  - intros [Hodd Heven]. rewrite Hodd, Heven. split; f_equal; lra.
Qed.

Lemma neighbouring_slots_share_edges_witness :
  corner defaultProps 0 3 1 = corner defaultProps 1 3 5 /\
  corner defaultProps 1 3 2 = corner defaultProps 2 4 4.
Proof.
  destruct (neighbouring_slots_share_edges defaultProps 0 3) as (_ & Hdown & _).
  destruct (neighbouring_slots_share_edges defaultProps 1 3) as (_ & _ & Hdown').
  split.
  - apply Hdown. reflexivity.
  - apply Hdown'. split; reflexivity.
Defined.

(** ** The region accepted by [isPointInHexagon] *)

Lemma isPointInHexagon_true (px py cx cy s : R) :
  0 < s ->
  (isPointInHexagon px py cx cy s = true <->
   Rabs (px - cx) <= s * sqrt 3 / 2 /\ Rabs (py - cy) <= s /\
   Rabs (py - cy) <= s * (1 - Rabs (px - cx) / (s * sqrt 3))).
Proof.
  intros Hs. unfold isPointInHexagon.
  rcases; simpl; split; intros H; try discriminate; try reflexivity; lra.
Qed.

(** The quotient [|dx| / (size * sqrt 3)] of the test, times [size]. *)
Lemma slope_term (dx s : R) :
  0 < s -> s * (1 - dx / (s * sqrt 3)) = s - dx / sqrt 3.
Proof.
  intros Hs. pose proof sqrt3_pos as H3. field. split; lra.
Qed.

(** X3.  For a positive size, the accepted region lies between the
    inscribed and the circumscribed circle of the hexagon: every point
    within [size * sqrt 3 / 2] of the centre is accepted, and every accepted
    point is within [size] of the centre. *)
Theorem isPointInHexagon_between_circles (px py cx cy s : R) :
  0 < s ->
  (dist2 px py cx cy <= (s * sqrt 3 / 2) ^ 2 -> isPointInHexagon px py cx cy s = true) /\
  (isPointInHexagon px py cx cy s = true -> dist2 px py cx cy <= s ^ 2).
Proof.
  intros Hs. pose proof sqrt3_pos as H3.
  assert (Hsq : sqrt 3 * sqrt 3 = 3) by (apply sqrt_sqrt; lra).
  unfold dist2. rewrite <- (pow2_abs (px - cx)), <- (pow2_abs (py - cy)).
  pose proof (Rabs_pos (px - cx)) as Hdx. pose proof (Rabs_pos (py - cy)) as Hdy.
  set (dx := Rabs (px - cx)) in *. set (dy := Rabs (py - cy)) in *.
  rewrite (isPointInHexagon_true px py cx cy s Hs). fold dx dy.
  rewrite (slope_term dx s Hs).
  set (u := dx / sqrt 3).
  assert (Hu : dx = u * sqrt 3) by (unfold u; field; lra).
  assert (Hu0 : 0 <= u) by (unfold u; apply Rle_mult_inv_pos; lra).
  assert (Hdx2 : dx ^ 2 = 3 * u ^ 2) by (rewrite Hu; nra).
  split.
  - intros Hin.
    assert (Hin' : 3 * u ^ 2 + dy ^ 2 <= 3 / 4 * s ^ 2) by nra.
    assert (Hsqr : 0 <= (3 * u - dy) ^ 2) by apply pow2_ge_0.
    repeat split.
    + assert (u <= s / 2) by nra. rewrite Hu. nra.
    + nra.
    + assert ((dy + u) ^ 2 <= s ^ 2) by nra. nra.
  - intros (Hx & Hy & Hslope).
    assert (Hu1 : u <= s / 2) by (rewrite Hu in Hx; nra).
    rewrite Hdx2. nra.
Qed.

Lemma isPointInHexagon_between_circles_witness :
  isPointInHexagon 20 15 0 0 30 = true.
Proof.
  destruct (isPointInHexagon_between_circles 20 15 0 0 30) as [Hin _].
  - lra.
  - apply Hin. unfold dist2. pose proof sqrt3_bounds. nra.
Defined.




(** ** Draw calls *)

Lemma wave_unit (t vx vy : R) : 0 <= wave t vx vy <= 1.
Proof. apply pow4_unit, rawWave_bounds. Qed.

Lemma wave_offset_bound (t vx vy : R) : Rabs (- (wave t vx vy - 0.5) * 12) <= 6.
Proof. pose proof (wave_unit t vx vy). apply Rabs_le. lra. Qed.

Lemma drawStars_length (P : Props) (waveTime screenX screenY : R) :
  length (drawStars P waveTime screenX screenY) = 6%nat.
Proof. unfold drawStars. rewrite hexagon_corner_list. reflexivity. Qed.


(** X6.  [drawHexagon] draws nothing for an alpha of at most 0.01;
    otherwise it fills exactly one path, with the colour and alpha it was
    given, through six points: the corners of the hexagon, each kept at its
    x and moved at most 6 up or down by the wave. *)
Theorem drawHexagon_calls (cx cy size alpha waveTime : R) (c : option Color) :
  (alpha <= 0.01 -> drawHexagon cx cy size alpha waveTime c = []) /\
  (0.01 < alpha ->
   exists path,
     drawHexagon cx cy size alpha waveTime c = [FillHexagon path c alpha] /\
     Forall2 (fun v w => fst w = fst v /\ Rabs (snd w - snd v) <= 6)
             (getHexagonVertices cx cy size) path).
Proof.
  unfold drawHexagon. split; intros Ha.
  - apply Rleb_true in Ha. rewrite Ha. reflexivity.
  - apply Rleb_false in Ha. rewrite Ha. eexists. split; [reflexivity |].
    generalize (getHexagonVertices cx cy size) as vs.
    induction vs as [| v vs IH]; simpl; constructor; [| exact IH].
    split; [reflexivity |]. cbn [fst snd].
    replace (snd v + - (wave waveTime (fst v) (snd v) - 0.5) * 12 - snd v)
      with (- (wave waveTime (fst v) (snd v) - 0.5) * 12) by lra.
    apply wave_offset_bound.
Qed.

Lemma drawHexagon_calls_witness :
  drawHexagon 100 100 30 0.005 0 (Some red) = [] /\
  exists path, drawHexagon 100 100 30 0.5 0 (Some red) = [FillHexagon path (Some red) 0.5].
Proof.
  destruct (drawHexagon_calls 100 100 30 0.005 0 (Some red)) as [Hnone _].
  destruct (drawHexagon_calls 100 100 30 0.5 0 (Some red)) as [_ Hone].
  split.
  - apply Hnone. lra.
  - destruct Hone as (path & Hp & _); [lra |]. exists path. exact Hp.
Defined.

Lemma drawHexagon_length (cx cy size alpha waveTime : R) (c : option Color) :
  (length (drawHexagon cx cy size alpha waveTime c) <= 1)%nat /\
  Forall (fun d => forall w h, d <> ClearCanvas w h)
         (drawHexagon cx cy size alpha waveTime c).
Proof.
  unfold drawHexagon. destruct (alpha <=? 0.01); simpl.
  - split; [lia | constructor].
  - split; [lia |]. repeat constructor. intros w h. discriminate.
Qed.

Lemma drawStars_no_clear (P : Props) (waveTime screenX screenY : R) :
  Forall (fun d => forall w h, d <> ClearCanvas w h)
         (drawStars P waveTime screenX screenY).
Proof.
  unfold drawStars. generalize (getHexagonVertices screenX screenY (hexSize P)) as vs.
  induction vs as [| v vs IH]; simpl; constructor; [| exact IH].
  intros w h. discriminate.
Qed.

Lemma drawHex_calls (P : Props) (off mouse size : R * R) (wt dt : R) (h : Hexagon) :
  (length (snd (drawHex P off mouse size wt dt h)) <= 7)%nat /\
  Forall (fun d => forall w h', d <> ClearCanvas w h')
         (snd (drawHex P off mouse size wt dt h)).
Proof.
  unfold drawHex. destruct (offScreen P size _ _); cbn [snd].
  - split; [simpl; lia | constructor].
  - pose proof (drawStars_length P wt (x h - fst off) (y h - snd off)) as Hsix.
    match goal with
    | |- context [drawHexagon ?a ?b ?c ?d ?e ?f] =>
        pose proof (drawHexagon_length a b c d e f) as [Hone Hnc]
    end.
    split.
    + rewrite length_app, Hsix. lia.
    + apply Forall_app. split; [apply drawStars_no_clear | exact Hnc].
Qed.

Lemma mapM_length {A B : Type} (f : A -> Rand B) (l : list A) (g : Rng) :
  length (fst (mapM f l g)) = length l.
Proof.
  assert (Hpost : post anyDraw (mapM f l) (Forall2 (fun _ _ => True) l)).
  { apply post_mapM. intros a g0 _. split; [exact I | apply draws_any]. }
  destruct (Hpost g (draws_any g)) as [HF _].
  apply (Forall2_same_length _ _ _ HF).
Qed.

Lemma flat_map_bound {A B : Type} (f : A -> list B) (n : nat) (Q : B -> Prop)
    (l : list A) :
  (forall a, (length (f a) <= n)%nat /\ Forall Q (f a)) ->
  (length (flat_map f l) <= n * length l)%nat /\ Forall Q (flat_map f l).
Proof.
  intros Hf. induction l as [| a l [IHn IHq]]; simpl.
  - split; [lia | constructor].
  - destruct (Hf a) as [Hn Hq]. split.
    + rewrite length_app. lia.
    + apply Forall_app. split; assumption.
Qed.

(** X7.  The draw calls of a frame start with the clearing of the canvas
    to its current size, which happens once; after it come at most seven
    calls per cell of the grid (six stars and one fill). *)
Theorem animate_draw_calls (P : Props) (t : R) (e : Engine) (g : Rng) :
  exists rest,
    snd (fst (animate P t e g)) =
      ClearCanvas (fst (canvasSize e)) (snd (canvasSize e)) :: rest /\
    (length rest <= 7 * length (hexagonsRef e))%nat /\
    Forall (fun d => forall w h, d <> ClearCanvas w h) rest.
Proof.
  destruct (animate_passes P t e g) as [_ Hcalls]. cbv zeta in Hcalls.
  eexists. split; [exact Hcalls |].
  rewrite flat_map_concat_map, map_map, <- flat_map_concat_map.
  match goal with
  | |- context [flat_map ?f ?l] =>
      pose proof (flat_map_bound f 7 (fun d => forall w h, d <> ClearCanvas w h) l) as Hb
  end.
  destruct Hb as [Hn Hq]; [intros h; apply drawHex_calls |].
  rewrite mapM_length in Hn. split; assumption.
Qed.

(** ** Alpha digits *)

Lemma byte_digits (n : nat) :
  (n < 256)%nat ->
  String.length (padStart2 (toString16 (Z.of_nat n))) = 2%nat /\
  parseHex (padStart2 (toString16 (Z.of_nat n))) = N.of_nat n.
Proof.
  intros Hn.
  assert (Hall : forallb (fun k =>
            Nat.eqb (String.length (padStart2 (toString16 (Z.of_nat k)))) 2
            && N.eqb (parseHex (padStart2 (toString16 (Z.of_nat k)))) (N.of_nat k))
          (seq 0 256) = true) by (vm_compute; reflexivity).
  rewrite forallb_forall in Hall.
  specialize (Hall n). rewrite in_seq in Hall.
  assert (Hok : (0 <= n < 0 + 256)%nat) by lia.
  specialize (Hall Hok). apply andb_true_iff in Hall as [Hlen Hval].
  split; [apply Nat.eqb_eq, Hlen | apply N.eqb_eq, Hval].
Qed.

Lemma string_length_app (a b : string) :
  String.length (a +:+ b) = (String.length a + String.length b)%nat.
Proof. induction a as [| ch a IH]; simpl; [reflexivity | rewrite IH; reflexivity]. Qed.

Lemma alpha_byte (alpha : R) :
  0 <= alpha <= 1 -> (0 <= Zfloor (alpha * 255) <= 255)%Z.
Proof.
  intros [H0 H1]. pose proof (Zfloor_bound (alpha * 255)) as [Hlo Hhi].
  split.
  - apply Zfloor_lub. simpl. lra.
  - apply le_IZR. lra.
Qed.

(** X8.  For an alpha between 0 and 1, the alpha digits appended to a hex
    colour are exactly two hex digits, and read back they are
    [floor(alpha * 255)], a value from 0 to 255; so the fill style of a
    coloured cell is a nine-character [#rrggbbaa] colour. *)
Theorem alphaSuffix_two_digits (alpha : R) (c : Color) :
  0 <= alpha <= 1 ->
  String.length (alphaSuffix alpha) = 2%nat /\
  Z.of_N (parseHex (alphaSuffix alpha)) = Zfloor (alpha * 255) /\
  (0 <= Zfloor (alpha * 255) <= 255)%Z /\
  String.length (highlightFillStyle c alpha) = 9%nat.
Proof.
  intros Ha. pose proof (alpha_byte alpha Ha) as Hb.
  unfold highlightFillStyle, alphaSuffix.
  set (n := Zfloor (alpha * 255)) in *.
  destruct (byte_digits (Z.to_nat n)) as [Hlen Hval]; [lia |].
  rewrite Z2Nat.id in Hlen, Hval by lia.
  split; [exact Hlen |]. split; [rewrite Hval; lia |]. split; [exact Hb |].
  rewrite string_length_app, Hlen. destruct c; reflexivity.
Qed.

Lemma alphaSuffix_two_digits_witness :
  String.length (alphaSuffix 0.05) = 2%nat /\
  String.length (highlightFillStyle red 0.05) = 9%nat.
Proof.
  destruct (alphaSuffix_two_digits 0.05 red) as (Hlen & _ & _ & Hstyle).
  - lra.
  - split; assumption.
Defined.

(** ** Properties of cells kept by generation and by every frame *)

Section CellInvariant.

Variable P : Props.
Variable Q : Hexagon -> Prop.

Hypothesis Q_new : forall row col, post unitDraw (newHexagon P row col) Q.
Hypothesis Q_tint :
  forall c r h, unitDraw r -> Q h -> Q (tint c (0.05 + r * 0.35) h).
Hypothesis Q_reroll : forall h, post unitDraw (reroll P h) Q.
Hypothesis Q_oscillation : forall dt h, Q h -> Q (updateOscillation dt h).
Hypothesis Q_hover :
  forall mouse sx sy dt h, Q h -> Q (updateHover P mouse sx sy dt h).

Lemma highlightNeighbor_keeps (total idx : Z) (c : Color) (j : Z) (st : Tinted) :
  Forall Q (fst st) ->
  post unitDraw (highlightNeighbor total idx c j st) (fun st' => Forall Q (fst st')).
Proof.
  intros HQ. unfold highlightNeighbor. destruct st as [hs colored].
  eapply post_bind; [apply post_random |]. simpl. intros r Hr.
  destruct (_ && _ && _).
  - eapply post_bind; [apply post_random |]. simpl. intros ro Hro.
    apply post_ret. simpl. apply Forall_alter; [exact HQ |].
    intros h _ Hh. apply Q_tint; assumption.
  - apply post_ret. exact HQ.
Qed.

Lemma highlightSeed_keeps (total : Z) (st : Tinted) :
  Forall Q (fst st) ->
  post unitDraw (highlightSeed total st) (fun st' => Forall Q (fst st')).
Proof.
  intros HQ. unfold highlightSeed. destruct st as [hs colored].
  eapply post_bind; [apply post_random |]. simpl. intros r Hr.
  destruct (bool_decide _); [apply post_ret; exact HQ |].
  eapply post_bind; [apply post_random |]. simpl. intros rc Hrc.
  eapply post_bind; [apply post_random |]. simpl. intros ro Hro.
  eapply post_bind; [apply post_random |]. simpl. intros rn Hrn.
  apply post_foldM.
  - intros j s Hs. apply highlightNeighbor_keeps. exact Hs.
  - simpl. apply Forall_alter; [exact HQ |].
    intros h _ Hh. apply Q_tint; assumption.
Qed.

Lemma initializeGrid_keeps (width height : R) :
  post unitDraw (initializeGrid P width height) (Forall Q).
Proof.
  unfold initializeGrid. cbv zeta.
  eapply post_bind.
  - apply (baseGrid_post P unitDraw Q _ _ Q_new).
  - simpl. intros hs [HF _].
    eapply post_bind.
    + apply (post_foldM unitDraw _ (fun st => Forall Q (fst st))).
      * intros _ s Hs. apply highlightSeed_keeps. exact Hs.
      * exact HF.
    + simpl. intros st Hst. apply post_ret. exact Hst.
Qed.

Lemma wrapHex_keeps (off size : R * R) (h : Hexagon) :
  post unitDraw (wrapHex P off size h) (fun h' => Q h -> Q h').
Proof.
  unfold wrapHex.
  eapply post_bind with (Q1 := fun h1 => Q h -> Q h1).
  - destruct (wrapsX P off h).
    + eapply post_weaken; [apply Q_reroll | auto].
    + apply post_ret. auto.
  - intros h1 H1. destruct (wrapsY P off h).
    + eapply post_weaken; [apply Q_reroll | auto].
    + apply post_ret. exact H1.
Qed.

Lemma drawHex_keeps (off mouse size : R * R) (wt dt : R) (h : Hexagon) :
  Q h -> Q (fst (drawHex P off mouse size wt dt h)).
Proof.
  intros HQ. unfold drawHex. destruct (offScreen P size _ _); simpl; [exact HQ |].
  apply Q_hover, Q_oscillation, HQ.
Qed.

Lemma animate_keeps (t : R) (e : Engine) :
  Forall Q (hexagonsRef e) ->
  post unitDraw (animate P t e) (fun r => Forall Q (hexagonsRef (fst r))).
Proof.
  intros HQ. unfold animate. cbv zeta.
  eapply post_bind.
  - apply post_mapM. intros h. apply wrapHex_keeps.
  - simpl. intros wrapped HF. apply post_ret. simpl.
    pose proof (Forall2_transport Q _ _ HF HQ) as Hw.
    rewrite map_map. apply Forall_map_intro.
    eapply Forall_impl; [exact Hw |]. simpl. intros h1 H1.
    apply drawHex_keeps. exact H1.
Qed.

Lemma animateAll_keeps (times : list R) :
  forall e : Engine,
  Forall Q (hexagonsRef e) ->
  post unitDraw (animateAll P times e) (fun r => Forall Q (hexagonsRef (fst r))).
Proof.
  induction times as [| t ts IH]; intros e HQ; simpl.
  - apply post_ret. exact HQ.
  - eapply post_bind; [apply animate_keeps; exact HQ |].
    simpl. intros r Hr.
    eapply post_bind; [apply IH; exact Hr |].
    simpl. intros r' Hr'. apply post_ret. exact Hr'.
Qed.

Lemma handle_keeps (ev : Event) (e : Engine) :
  Forall Q (hexagonsRef e) ->
  post unitDraw (handle P ev e) (fun r => Forall Q (hexagonsRef (fst r))).
Proof.
  intros HQ. destruct ev as [t | w h | px py |]; simpl.
  - apply animate_keeps. exact HQ.
  - eapply post_bind.
    + unfold updateCanvasSize.
      eapply post_bind; [apply initializeGrid_keeps |].
      simpl. intros hs Hhs. apply post_ret with (Q := fun e' => Forall Q (hexagonsRef e')).
      exact Hhs.
    + simpl. intros e' He'. apply post_ret. exact He'.
  - apply post_ret. exact HQ.
  - apply post_ret. exact HQ.
Qed.

(** Whatever the events, every cell satisfies [Q] at the end. *)
Lemma run_keeps (evs : list Event) :
  forall e : Engine,
  Forall Q (hexagonsRef e) ->
  post unitDraw (run P evs e) (fun r => Forall Q (hexagonsRef (fst r))).
Proof.
  induction evs as [| ev evs IH]; intros e HQ; simpl.
  - apply post_ret. exact HQ.
  - eapply post_bind; [apply handle_keeps; exact HQ |].
    simpl. intros r Hr.
    eapply post_bind; [apply IH; exact Hr |].
    simpl. intros r' Hr'. apply post_ret. exact Hr'.
Qed.

Lemma session_keeps (now : R) (evs : list Event) (g : Rng) :
  validRng g ->
  Forall Q (hexagonsRef (fst (fst (run P evs (initialEngine now) g)))).
Proof.
  intros Hg. apply (run_keeps evs (initialEngine now)); [constructor | exact Hg].
Qed.

End CellInvariant.

Ltac six_draws Hg :=
  pose proof (Hg 0%nat); pose proof (Hg 1%nat); pose proof (Hg 2%nat);
  pose proof (Hg 3%nat); pose proof (Hg 4%nat); pose proof (Hg 5%nat);
  unfold unitDraw in *.

Lemma updateOscillation_hover_fields (dt : R) (h : Hexagon) :
  shouldHover (updateOscillation dt h) = shouldHover h /\
  hoverOpacity (updateOscillation dt h) = hoverOpacity h /\
  hoverTarget (updateOscillation dt h) = hoverTarget h /\
  oscillationRate (updateOscillation dt h) = oscillationRate h.
Proof.
  unfold updateOscillation. destruct (shouldOscillate h); [| auto].
  rcases; simpl; auto.
Qed.

Lemma updateOscillation_direction (dt : R) (h : Hexagon) :
  oscillationDirection (updateOscillation dt h) = oscillationDirection h \/
  oscillationDirection (updateOscillation dt h) = 1 \/
  oscillationDirection (updateOscillation dt h) = -1.
Proof.
  unfold updateOscillation. destruct (shouldOscillate h); [| auto].
  rcases; simpl; auto.
Qed.

Lemma updateHover_other_fields (P : Props) (mouse : R * R) (sx sy dt : R) (h : Hexagon) :
  let h' := updateHover P mouse sx sy dt h in
  x h' = x h /\ y h' = y h /\ shouldHover h' = shouldHover h /\
  shouldOscillate h' = shouldOscillate h /\ isStatic h' = isStatic h /\
  opacity h' = opacity h /\ oscillationRate h' = oscillationRate h /\
  oscillationDirection h' = oscillationDirection h /\ color h' = color h.
Proof.
  cbv zeta. unfold updateHover. destruct (shouldHover h) eqn:E; simpl; auto 10.
Qed.

Lemma updateHover_idle (P : Props) (mouse : R * R) (sx sy dt : R) (h : Hexagon) :
  shouldHover h = false -> updateHover P mouse sx sy dt h = h.
Proof. intros Hh. unfold updateHover. rewrite Hh. reflexivity. Qed.

(** *** Motion parameters *)

Lemma newHexagon_motionOK (P : Props) (row col : Z) :
  post unitDraw (newHexagon P row col) motionOK.
Proof.
  intros g Hg. six_draws Hg.
  unfold newHexagon, motionOK. rand_eval;
    (split; [| intros n; apply Hg]); (split; [lra | auto]).
Qed.

Lemma reroll_motionOK (P : Props) (h : Hexagon) :
  post unitDraw (reroll P h) motionOK.
Proof.
  intros g Hg. six_draws Hg.
  unfold reroll, motionOK. rand_eval;
    (split; [| intros n; apply Hg]); (split; [lra | auto]).
Qed.

Lemma updateOscillation_motionOK (dt : R) (h : Hexagon) :
  motionOK h -> motionOK (updateOscillation dt h).
Proof.
  intros [Hr Hd]. unfold motionOK.
  destruct (updateOscillation_hover_fields dt h) as (_ & _ & _ & Hrate).
  rewrite Hrate. split; [exact Hr |].
  destruct (updateOscillation_direction dt h) as [Hsame | Hset];
    [rewrite Hsame; exact Hd | exact Hset].
Qed.

Lemma updateHover_motionOK (P : Props) (mouse : R * R) (sx sy dt : R) (h : Hexagon) :
  motionOK h -> motionOK (updateHover P mouse sx sy dt h).
Proof.
  destruct (updateHover_other_fields P mouse sx sy dt h)
    as (_ & _ & _ & _ & _ & _ & Hr & Hd & _).
  unfold motionOK. rewrite Hr, Hd. auto.
Qed.

(** *** Coloured cells *)

Lemma newHexagon_uncoloured (P : Props) (row col : Z) (g : Rng) :
  color (fst (newHexagon P row col g)) = None.
Proof. unfold newHexagon. rand_eval; reflexivity. Qed.

Lemma updateOscillation_highlightOK (dt : R) (h : Hexagon) :
  highlightOK h -> highlightOK (updateOscillation dt h).
Proof.
  unfold highlightOK. rewrite updateOscillation_color, updateOscillation_flag. auto.
Qed.

Lemma updateHover_highlightOK (P : Props) (mouse : R * R) (sx sy dt : R) (h : Hexagon) :
  highlightOK h -> highlightOK (updateHover P mouse sx sy dt h).
Proof.
  destruct (updateHover_other_fields P mouse sx sy dt h)
    as (_ & _ & _ & Ho & _ & _ & _ & _ & Hc).
  unfold highlightOK. rewrite Ho, Hc. auto.
Qed.

(** X9.  Throughout a session (any sequence of frames, resizes and pointer
    events, any outcome of the draws), every cell has an opacity between 0
    and 0.4, and every oscillating cell and every coloured cell has an
    opacity in the band from 0.05 to 0.4. *)
Theorem session_opacity (P : Props) (now : R) (evs : list Event) (g : Rng) :
  validRng g ->
  Forall (fun h =>
            0 <= opacity h <= 0.4 /\
            (shouldOscillate h = true \/ color h <> None -> 0.05 <= opacity h <= 0.4))
         (hexagonsRef (fst (fst (run P evs (initialEngine now) g)))).
Proof.
  intros Hg.
  pose proof (session_keeps P opacityOK
                (fun r c => post_weaken _ _ _ _ (newHexagon_fresh P r c) (freshCell_opacityOK P))
                (fun c r h Hr _ => tint_opacityOK c r h Hr)
                (reroll_opacityOK P)
                updateOscillation_opacityOK
                (updateHover_opacityOK P) now evs g Hg) as Hop.
  pose proof (session_keeps P highlightOK
                (fun r c g0 Hg0 =>
                   conj (fun Hc => False_ind _ (Hc (newHexagon_uncoloured P r c g0)))
                        (proj2 (newHexagon_fresh P r c g0 Hg0)))
                (fun c r h _ _ _ => eq_refl)
                (fun h g0 Hg0 =>
                   conj (fun Hc => False_ind _
                           (Hc (proj1 (proj2 (proj2 (reroll_fields P h g0))))))
                        (proj2 (reroll_opacityOK P h g0 Hg0)))
                updateOscillation_highlightOK
                (updateHover_highlightOK P) now evs g Hg) as Hhl.
  revert Hop Hhl.
  generalize (hexagonsRef (fst (fst (run P evs (initialEngine now) g)))) as hs.
  induction hs as [| h hs IH]; intros Hop Hhl; [constructor |].
  inversion Hop as [| ? ? [Hrange Hband] Hop']; subst.
  inversion Hhl as [| ? ? Hh Hhl']; subst.
  constructor; [| apply IH; assumption].
  split; [exact Hrange |].
  intros [Hosc | Hcol]; [apply Hband, Hosc | apply Hband, Hh, Hcol].
Qed.

Lemma session_opacity_witness :
  Forall (fun h =>
            0 <= opacity h <= 0.4 /\
            (shouldOscillate h = true \/ color h <> None -> 0.05 <= opacity h <= 0.4))
         (hexagonsRef (fst (fst
            (run defaultProps [Resize 300 300; Frame 16; MouseMove 10 10; Frame 32]
               (initialEngine 0) (fun _ => 0.5))))).
Proof.
  apply (session_opacity defaultProps 0
           [Resize 300 300; Frame 16; MouseMove 10 10; Frame 32] (fun _ => 0.5)).
  intros n. lra.
Defined.

(** X10.  Throughout a session, every cell has an oscillation rate in
    [0.001, 0.0022) and an oscillation direction that is 1 or -1. *)
Theorem session_motion (P : Props) (now : R) (evs : list Event) (g : Rng) :
  validRng g ->
  Forall (fun h =>
            0.001 <= oscillationRate h < 0.0022 /\
            (oscillationDirection h = 1 \/ oscillationDirection h = -1))
         (hexagonsRef (fst (fst (run P evs (initialEngine now) g)))).
Proof.
  intros Hg.
  apply (session_keeps P motionOK (newHexagon_motionOK P)
           (fun c r h _ Hh => Hh) (reroll_motionOK P)
           updateOscillation_motionOK (updateHover_motionOK P) now evs g Hg).
Qed.

Lemma session_motion_witness :
  Forall (fun h =>
            0.001 <= oscillationRate h < 0.0022 /\
            (oscillationDirection h = 1 \/ oscillationDirection h = -1))
         (hexagonsRef (fst (fst
            (run defaultProps [Resize 300 300; Frame 16; Frame 32]
               (initialEngine 0) (fun _ => 0.5))))).
Proof.
  apply (session_motion defaultProps 0 [Resize 300 300; Frame 16; Frame 32]
           (fun _ => 0.5)).
  intros n. lra.
Defined.

(** *** The special-behaviour probability at its ends *)

Lemma newHexagon_hover_flag (P : Props) (row col : Z) :
  post unitDraw (newHexagon P row col)
    (fun h => hoverOpacity h = 0 /\ hoverTarget h = 0 /\
              (staticHexChance P <= 0 -> shouldHover h = false) /\
              (1 <= staticHexChance P -> shouldHover h = true)).
Proof.
  intros g Hg. six_draws Hg.
  unfold newHexagon. rand_eval;
    (split; [| intros n; apply Hg]);
    repeat split; try reflexivity; intros; lra.
Qed.

Lemma reroll_hover_flag (P : Props) (h : Hexagon) :
  post unitDraw (reroll P h)
    (fun h' => hoverOpacity h' = 0 /\ hoverTarget h' = 0 /\
               (staticHexChance P <= 0 -> shouldHover h' = false) /\
               (1 <= staticHexChance P -> shouldHover h' = true)).
Proof.
  intros g Hg. six_draws Hg.
  unfold reroll. rand_eval;
    (split; [| intros n; apply Hg]);
    repeat split; try reflexivity; intros; lra.
Qed.

Lemma updateOscillation_hoverOff (dt : R) (h : Hexagon) :
  hoverOff h -> hoverOff (updateOscillation dt h).
Proof.
  destruct (updateOscillation_hover_fields dt h) as (Hs & Ho & Ht & _).
  unfold hoverOff. rewrite Hs, Ho, Ht. auto.
Qed.

Lemma updateHover_hoverOff (P : Props) (mouse : R * R) (sx sy dt : R) (h : Hexagon) :
  hoverOff h -> hoverOff (updateHover P mouse sx sy dt h).
Proof.
  intros Hoff. rewrite updateHover_idle; [exact Hoff | apply Hoff].
Qed.

(** X11.  With a special-behaviour probability of 0 or less, hovering is
    off for the whole session: no cell is ever hover-enabled, and every
    cell keeps a hover opacity and a hover target of 0, whatever the
    pointer does. *)
Theorem session_without_hover (P : Props) (now : R) (evs : list Event) (g : Rng) :
  staticHexChance P <= 0 ->
  validRng g ->
  Forall (fun h => shouldHover h = false /\ hoverOpacity h = 0 /\ hoverTarget h = 0)
         (hexagonsRef (fst (fst (run P evs (initialEngine now) g)))).
Proof.
  intros Hp Hg.
  apply (session_keeps P hoverOff); try exact Hg.
  - intros row col g0 Hg0.
    destruct (newHexagon_hover_flag P row col g0 Hg0) as [(Ho & Ht & Hoff & _) Hg1].
    split; [| exact Hg1]. repeat split; auto.
  - intros c r h _ Hh. exact Hh.
  - intros h g0 Hg0.
    destruct (reroll_hover_flag P h g0 Hg0) as [(Ho & Ht & Hoff & _) Hg1].
    split; [| exact Hg1]. repeat split; auto.
  - apply updateOscillation_hoverOff.
  - apply updateHover_hoverOff.
Qed.

Lemma session_without_hover_witness :
  Forall (fun h => shouldHover h = false /\ hoverOpacity h = 0 /\ hoverTarget h = 0)
         (hexagonsRef (fst (fst
            (run zeroChanceProps [Resize 300 300; MouseMove 10 10; Frame 16]
               (initialEngine 0) (fun _ => 0.5))))).
Proof.
  apply (session_without_hover zeroChanceProps 0
           [Resize 300 300; MouseMove 10 10; Frame 16] (fun _ => 0.5)).
  - simpl. lra.
  - intros n. lra.
Defined.

(** X12.  With a special-behaviour probability of 1 or more, every cell is
    hover-enabled for the whole session. *)
Theorem session_all_hover (P : Props) (now : R) (evs : list Event) (g : Rng) :
  1 <= staticHexChance P ->
  validRng g ->
  Forall (fun h => shouldHover h = true)
         (hexagonsRef (fst (fst (run P evs (initialEngine now) g)))).
Proof.
  intros Hp Hg.
  apply (session_keeps P (fun h => shouldHover h = true)); try exact Hg.
  - intros row col g0 Hg0.
    destruct (newHexagon_hover_flag P row col g0 Hg0) as [(_ & _ & _ & Hon) Hg1].
    split; [auto | exact Hg1].
  - intros c r h _ Hh. exact Hh.
  - intros h g0 Hg0.
    destruct (reroll_hover_flag P h g0 Hg0) as [(_ & _ & _ & Hon) Hg1].
    split; [auto | exact Hg1].
  - intros dt h Hh. destruct (updateOscillation_hover_fields dt h) as (Hs & _).
    rewrite Hs. exact Hh.
  - intros mouse sx sy dt h Hh.
    destruct (updateHover_other_fields P mouse sx sy dt h) as (_ & _ & Hs & _).
    rewrite Hs. exact Hh.
Qed.

Lemma session_all_hover_witness :
  Forall (fun h => shouldHover h = true)
         (hexagonsRef (fst (fst
            (run (mkProps 30 1 0.15 0.3) [Resize 300 300; Frame 16]
               (initialEngine 0) (fun _ => 0.5))))).
Proof.
  apply (session_all_hover (mkProps 30 1 0.15 0.3) 0 [Resize 300 300; Frame 16]
           (fun _ => 0.5)).
  - simpl. lra.
  - intros n. lra.
Defined.

(** ** The highlight pass *)

Lemma colouredCells_alter (c : Color) (o : R) (i : nat) (hs : list Hexagon) :
  (colouredCells (alter (tint c o) i hs) <= S (colouredCells hs))%nat.
Proof.
  unfold colouredCells. revert i.
  induction hs as [| h hs IH]; intros [| i]; simpl.
  - lia.
  - lia.
  - destruct (color h); simpl; auto with arith.
  - specialize (IH i). destruct (color h); simpl; auto with arith.
Qed.

Lemma post_foldM_count {A S : Type} (D : R -> Prop) (f : A -> S -> Rand S)
    (m : S -> nat) (k : nat) (l : list A) :
  (forall a s, post D (f a s) (fun s' => (m s' <= m s + k)%nat)) ->
  forall s, post D (foldM f l s) (fun s' => (m s' <= m s + k * length l)%nat).
Proof.
  intros Hf. induction l as [| a l IH]; intros s; simpl.
  - apply post_ret. lia.
  - eapply post_bind; [apply Hf |]. simpl. intros s1 H1.
    eapply post_weaken; [apply IH |]. simpl. intros s2 H2. lia.
Qed.

Lemma highlightNeighbor_count (total idx : Z) (c : Color) (j : Z) (st : Tinted) :
  post anyDraw (highlightNeighbor total idx c j st)
    (fun st' => (colouredCells (fst st') <= colouredCells (fst st) + 1)%nat).
Proof.
  intros g _. split; [| apply draws_any].
  unfold highlightNeighbor. destruct st as [hs colored]. unfold bind, random, ret.
  simpl. destruct (_ && _ && _); simpl; [| lia].
  pose proof (colouredCells_alter c (0.05 + g 1%nat * 0.35) (Z.to_nat
    (idx + (j + 1) * (if g 0%nat >? 0.5 then 1 else -1))) hs). lia.
Qed.

Lemma highlightSeed_count (total : Z) (st : Tinted) :
  post anyDraw (highlightSeed total st)
    (fun st' => (colouredCells (fst st') <= colouredCells (fst st) + 3)%nat).
Proof.
  unfold highlightSeed. destruct st as [hs colored].
  eapply post_bind; [apply post_random |]. simpl. intros r _.
  destruct (bool_decide _); [apply post_ret; simpl; lia |].
  eapply post_bind; [apply post_random |]. simpl. intros rc _.
  eapply post_bind; [apply post_random |]. simpl. intros ro _.
  eapply post_bind; [apply post_random |]. simpl. intros rn _.
  eapply post_weaken.
  - apply (post_foldM_count anyDraw _ (fun st' => colouredCells (fst st')) 1).
    intros j s. apply highlightNeighbor_count.
  - simpl. intros st' Hst'.
    pose proof (colouredCells_alter (if rc >? 0.5 then red else green)
                  (0.05 + ro * 0.35) (Z.to_nat (Zfloor (r * IZR total))) hs) as Hseed.
    assert (Hn : (length (seqZ 0 (if rn >? 0.5 then 1 else 2)) <= 2)%nat).
    { rewrite length_seqZ. destruct (rn >? 0.5); simpl; lia. }
    lia.
Qed.

Lemma baseGrid_uncoloured (P : Props) (rows cols : Z) (g : Rng) :
  colouredCells (fst (baseGrid P rows cols g)) = 0%nat.
Proof.
  assert (Hnew : forall r c, post anyDraw (newHexagon P r c) (fun h => color h = None)).
  { intros r c g0 _. split; [apply newHexagon_uncoloured | apply draws_any]. }
  destruct (baseGrid_post P anyDraw _ rows cols Hnew g (draws_any g)) as [[HF _] _].
  unfold colouredCells.
  induction HF as [| h hs Hh _ IH]; simpl; [reflexivity |].
  rewrite Hh. exact IH.
Qed.

(** The two passes of [initializeGrid]: the nested loops, then the seeds. *)
Lemma initializeGrid_passes (P : Props) (width height : R) (g : Rng) :
  exists hs g1 st g2,
    baseGrid P (Zceil (height / verticalSpacing P) + 2)
      (Zceil (width / hexWidth P) + 2) g = (hs, g1) /\
    foldM (fun _ : Z => highlightSeed (Z.of_nat (length hs)))
      (seqZ 0 (Zfloor (IZR (Z.of_nat (length hs)) * 0.01))) (hs, (∅ : gset Z)) g1
      = (st, g2) /\
    fst (initializeGrid P width height g) = fst st.
Proof.
  unfold initializeGrid, bind. cbv zeta.
  destruct (baseGrid P _ _ g) as [hs g1].
  destruct (foldM (fun _ : Z => highlightSeed (Z.of_nat (length hs)))
              (seqZ 0 (Zfloor (IZR (Z.of_nat (length hs)) * 0.01)))
              (hs, (∅ : gset Z)) g1) as [st g2] eqn:Hf.
  exists hs, g1, st, g2. split; [reflexivity |]. split; [exact Hf | reflexivity].
Qed.

(** X13.  Whatever the draws, at most three cells are coloured per
    highlight seed, and there are [floor(0.01 * n)] seeds for a grid of [n]
    cells: at most 3% of the grid is coloured, and a grid of fewer than 100
    cells has no coloured cell at all. *)
Theorem coloured_cells_bound (P : Props) (width height : R) (g : Rng) :
  let grid := fst (initializeGrid P width height g) in
  (colouredCells grid <= 3 * Z.to_nat (Zfloor (INR (length grid) * 0.01)))%nat /\
  (100 * colouredCells grid <= 3 * length grid)%nat /\
  ((length grid < 100)%nat -> Forall (fun h => color h = None) grid).
Proof.
  cbv zeta.
  destruct (initializeGrid_passes P width height g)
    as (hs & g1 & st & g2 & Hb & Hf & Hgrid).
  rewrite Hgrid.
  pose proof (baseGrid_uncoloured P (Zceil (height / verticalSpacing P) + 2)
                (Zceil (width / hexWidth P) + 2) g) as Hbase.
  rewrite Hb in Hbase. cbn [fst] in Hbase.
  pose proof (post_foldM_count anyDraw
                (fun _ : Z => highlightSeed (Z.of_nat (length hs)))
                (fun st' => colouredCells (fst st')) 3
                (seqZ 0 (Zfloor (IZR (Z.of_nat (length hs)) * 0.01)))
                (fun a0 s0 => highlightSeed_count _ s0) (hs, (∅ : gset Z)) g1 (draws_any g1))
    as [Hcount _].
  pose proof (post_foldM anyDraw
                (fun _ : Z => highlightSeed (Z.of_nat (length hs)))
                (fun st' => length (fst st') = length hs)
                (seqZ 0 (Zfloor (IZR (Z.of_nat (length hs)) * 0.01)))
                (fun a0 s0 Hs0 => highlightSeed_length (length hs) _ s0 Hs0)
                (hs, (∅ : gset Z)) eq_refl g1 (draws_any g1)) as [Hsame _].
  rewrite Hf in Hcount, Hsame.
  unfold ret in *. cbn [fst] in *.
  rewrite length_seqZ, Hbase in Hcount. rewrite Hsame.
  rewrite INR_IZR_INZ.
  set (n := length hs) in *.
  set (seeds := Zfloor (IZR (Z.of_nat n) * 0.01)) in *.
  assert (Hseeds : (100 * Z.to_nat seeds <= n)%nat).
  { pose proof (Zfloor_bound (IZR (Z.of_nat n) * 0.01)) as [Hlo _]. fold seeds in Hlo.
    destruct (Z_le_gt_dec seeds 0) as [Hneg | Hpos].
    - rewrite Z2Nat.nonpos by lia. lia.
    - assert (Hz : (100 * seeds <= Z.of_nat n)%Z).
      { apply le_IZR. rewrite mult_IZR. lra. }
      lia. }
  split; [lia |]. split; [lia |].
  intros Hsmall.
  assert (Hzero : colouredCells (fst st) = 0%nat) by lia.
  revert Hzero. unfold colouredCells. generalize (fst st) as cells.
  induction cells as [| h cells IH]; simpl; intros Hz; [constructor |].
  destruct (color h) eqn:Hc; simpl in Hz; [discriminate |].
  constructor; [exact Hc | apply IH; exact Hz].
Qed.

Lemma coloured_cells_bound_witness :
  Forall (fun h => color h = None)
         (fst (initializeGrid defaultProps 300 300 (fun _ => 0.5))).
Proof.
  destruct (coloured_cells_bound defaultProps 300 300 (fun _ => 0.5)) as (_ & _ & Hnone).
  apply Hnone. rewrite initializeGrid_length.
  rewrite (Zceil_300_hexWidth defaultProps eq_refl).
  rewrite (Zceil_300_verticalSpacing defaultProps eq_refl).
  vm_compute. lia.
Defined.

(** ** The clock of the engine *)

Lemma animate_state (P : Props) (t : R) (e : Engine) (g : Rng) :
  let e' := fst (fst (animate P t e g)) in
  let dt := (t - lastTime e) / 1000 in
  offsetRef e' = (fst (offsetRef e) + panSpeed P * dt * 60,
                  snd (offsetRef e) + panSpeed P * dt * 60) /\
  waveTimeRef e' = waveTimeRef e + dt * 0.5 /\
  lastTime e' = t /\
  mouseRef e' = mouseRef e /\
  canvasSize e' = canvasSize e /\
  length (hexagonsRef e') = length (hexagonsRef e).
Proof.
  cbv zeta. destruct (animate_passes P t e g) as [Hcells _]. cbv zeta in Hcells.
  split; [| split; [| split; [| split; [| split]]]];
    try (unfold animate, bind; cbv zeta;
         destruct (mapM _ (hexagonsRef e) g) as [wrapped g']; reflexivity).
  rewrite Hcells, !length_map. apply mapM_length.
Qed.

Lemma last_cons {A : Type} (a d : A) (l : list A) :
  List.last (a :: l) d = List.last l a.
Proof.
  revert a d. induction l as [| b l IH]; intros a d; [reflexivity |].
  change (List.last (a :: b :: l) d) with (List.last (b :: l) d).
  rewrite (IH b d), (IH b a). reflexivity.
Qed.

Lemma animateAll_cons (P : Props) (t : R) (ts : list R) (e : Engine) (g : Rng) :
  fst (fst (animateAll P (t :: ts) e g)) =
    fst (fst (animateAll P ts (fst (fst (animate P t e g))) (snd (animate P t e g)))).
Proof.
  simpl. unfold bind, ret.
  destruct (animate P t e g) as [[e1 c1] g1]. simpl.
  destruct (animateAll P ts e1 g1) as [[e2 c2] g2]. reflexivity.
Qed.

(** X14.  The pan offset, the wave clock and the cell count after a run of
    frames depend only on the time of the last frame, not on how many
    frames there were: the offset has advanced on both axes by
    [panSpeed * 0.06] per millisecond and the wave clock by 0.0005 per
    millisecond since the start; pointer, canvas size and number of cells
    are untouched. *)
Theorem frames_keep_time (P : Props) (times : list R) (e : Engine) (g : Rng) :
  let e' := fst (fst (animateAll P times e g)) in
  let elapsed := List.last times (lastTime e) - lastTime e in
  offsetRef e' = (fst (offsetRef e) + panSpeed P * 0.06 * elapsed,
                  snd (offsetRef e) + panSpeed P * 0.06 * elapsed) /\
  waveTimeRef e' = waveTimeRef e + 0.0005 * elapsed /\
  lastTime e' = List.last times (lastTime e) /\
  mouseRef e' = mouseRef e /\
  canvasSize e' = canvasSize e /\
  length (hexagonsRef e') = length (hexagonsRef e).
Proof.
  cbv zeta. revert e g.
  induction times as [| t ts IH]; intros e g.
  - simpl. repeat split; try reflexivity.
    + destruct (offsetRef e) as [ox oy]. simpl. f_equal; lra.
    + lra.
  - rewrite animateAll_cons, last_cons.
    destruct (animate_state P t e g) as (Hoff & Hwave & Hlast & Hmouse & Hsize & Hlen).
    cbv zeta in *.
    set (e1 := fst (fst (animate P t e g))) in *.
    destruct (IH e1 (snd (animate P t e g))) as (Hoff' & Hwave' & Hlast' & Hmouse' & Hsize' & Hlen').
    rewrite Hlast in *.
    repeat split.
    + rewrite Hoff', Hoff. cbn [fst snd]. f_equal; lra.
    + rewrite Hwave', Hwave. lra.
    + exact Hlast'.
    + rewrite Hmouse'. exact Hmouse.
    + rewrite Hsize'. exact Hsize.
    + rewrite Hlen'. exact Hlen.
Qed.

(** ** What a frame changes in a cell *)

Lemma updateOscillation_other_fields (dt : R) (h : Hexagon) :
  let h' := updateOscillation dt h in
  x h' = x h /\ y h' = y h /\ shouldHover h' = shouldHover h /\
  shouldOscillate h' = shouldOscillate h /\ isStatic h' = isStatic h /\
  oscillationRate h' = oscillationRate h /\ color h' = color h.
Proof.
  cbv zeta. unfold updateOscillation. destruct (shouldOscillate h) eqn:E; [| auto 10].
  rcases; simpl; auto 10.
Qed.

Lemma drawHex_other_fields (P : Props) (off mouse size : R * R) (wt dt : R) (h : Hexagon) :
  let h' := fst (drawHex P off mouse size wt dt h) in
  x h' = x h /\ y h' = y h /\ shouldHover h' = shouldHover h /\
  shouldOscillate h' = shouldOscillate h /\ isStatic h' = isStatic h /\
  oscillationRate h' = oscillationRate h /\ color h' = color h.
Proof.
  cbv zeta. unfold drawHex. destruct (offScreen P size _ _); cbn [fst]; [auto 10 |].
  match goal with
  | |- context [updateHover P mouse ?sx ?sy dt ?h1] =>
      destruct (updateHover_other_fields P mouse sx sy dt h1)
        as (Hx & Hy & Hh & Ho & Hs & _ & Hr & _ & Hc)
  end.
  destruct (updateOscillation_other_fields dt h) as (Hx' & Hy' & Hh' & Ho' & Hs' & Hr' & Hc').
  cbv zeta in *.
  rewrite Hx, Hy, Hh, Ho, Hs, Hr, Hc. auto 10.
Qed.

Lemma drawHex_idle (P : Props) (off mouse size : R * R) (wt dt : R) (h : Hexagon) :
  shouldOscillate h = false -> shouldHover h = false ->
  fst (drawHex P off mouse size wt dt h) = h.
Proof.
  intros Ho Hh. unfold drawHex. destruct (offScreen P size _ _); cbn [fst]; [reflexivity |].
  rewrite (updateOscillation_idle dt h Ho). apply updateHover_idle. exact Hh.
Qed.

(** X15.  In a frame, a cell's world position changes only by wrapping: x
    grows by the x span exactly when the screen x is below the x threshold,
    y by the y span exactly when the screen y is below the y threshold.  A
    cell that does not wrap keeps its three behaviour flags, its
    oscillation rate and its colour, and is left entirely unchanged when it
    neither oscillates nor is hover-enabled. *)
Theorem frame_changes (P : Props) (t : R) (e : Engine) (g : Rng) :
  let dt := (t - lastTime e) / 1000 in
  let off := (fst (offsetRef e) + panSpeed P * dt * 60,
              snd (offsetRef e) + panSpeed P * dt * 60) in
  Forall2 (fun h h' =>
             x h' = (if wrapsX P off h then x h + wrapSpanX P (canvasSize e) else x h) /\
             y h' = (if wrapsY P off h then y h + wrapSpanY P (canvasSize e) else y h) /\
             (wrapsX P off h = false -> wrapsY P off h = false ->
              shouldHover h' = shouldHover h /\
              shouldOscillate h' = shouldOscillate h /\
              isStatic h' = isStatic h /\
              oscillationRate h' = oscillationRate h /\
              color h' = color h /\
              (shouldOscillate h = false -> shouldHover h = false -> h' = h)))
          (hexagonsRef e) (hexagonsRef (fst (fst (animate P t e g)))).
Proof.
  cbv zeta. destruct (animate_passes P t e g) as [Hcells _]. cbv zeta in Hcells.
  rewrite Hcells, map_map. apply Forall2_map_r.
  set (off := (_, _)). set (dt := (t - lastTime e) / 1000).
  set (wt := waveTimeRef e + dt * 0.5).
  assert (Hpost : post anyDraw (mapM (wrapHex P off (canvasSize e)) (hexagonsRef e))
            (Forall2 (fun h h1 =>
               x h1 = (if wrapsX P off h then x h + wrapSpanX P (canvasSize e) else x h) /\
               y h1 = (if wrapsY P off h then y h + wrapSpanY P (canvasSize e) else y h) /\
               (wrapsX P off h = false -> wrapsY P off h = false -> h1 = h))
               (hexagonsRef e))).
  { apply post_mapM. intros h g0 _. split; [| apply draws_any].
    split; [apply wrapHex_x | split; [apply wrapHex_y |]].
    intros HX HY. rewrite (wrapHex_unwrapped P off (canvasSize e) h g0 HX HY). reflexivity. }
  destruct (Hpost g (draws_any g)) as [HF _].
  eapply Forall2_impl; [exact HF |]. simpl. intros h h1 (Hx & Hy & Hsame).
  destruct (drawHex_other_fields P off (mouseRef e) (canvasSize e) wt dt h1)
    as (Dx & Dy & Dh & Do & Ds & Dr & Dc).
  cbv zeta in *. rewrite Dx, Dy.
  split; [exact Hx | split; [exact Hy |]].
  intros HX HY. rewrite Dh, Do, Ds, Dr, Dc. rewrite (Hsame HX HY).
  repeat split. intros Hosc Hhov. apply drawHex_idle; assumption.
Qed.

Lemma generatedRows_eq (P : Props) (height : R) :
  0 < hexSize P -> 0 <= height ->
  INR (generatedRows P height) = IZR (Zceil (height / verticalSpacing P)) + 3.
Proof.
  intros Hs Hh. unfold generatedRows. rewrite length_loopRange.
  assert (Hc : (0 <= Zceil (height / verticalSpacing P))%Z).
  { apply Zceil_nonneg. apply Rle_mult_inv_pos; [exact Hh |].
    unfold verticalSpacing, hexHeight. lra. }
  rewrite INR_IZR_INZ, Z2Nat.id by lia.
  rewrite !plus_IZR. lra.
Qed.

(** X16.  On the y axis: a cell whose screen y is below the wrap threshold
    [-3 * hexHeight] (four row spacings), by no more than one wrap span, has
    after the recycle step a screen y at or above the threshold; its world
    y has grown by exactly [verticalSpacing * (ceil(height /
    verticalSpacing) + 4)], one row spacing more than the height of the
    rows the grid was generated with, and its x is unchanged unless it
    wraps on x too. *)
Theorem recycle_y (P : Props) (off size : R * R) (h : Hexagon) (g : Rng) :
  0 < hexSize P ->
  0 <= snd size ->
  y h - snd off < - hexHeight P * 3 ->
  - hexHeight P * 3 - wrapSpanY P size <= y h - snd off ->
  let h' := fst (wrapHex P off size h g) in
  - hexHeight P * 3 <= y h' - snd off /\
  y h' = y h + verticalSpacing P * (IZR (Zceil (snd size / verticalSpacing P)) + 4) /\
  y h' - y h = verticalSpacing P * INR (generatedRows P (snd size)) + verticalSpacing P /\
  - hexHeight P * 3 = - (4 * verticalSpacing P) /\
  (wrapsX P off h = false -> x h' = x h).
Proof.
  intros Hs Hh Hbelow Hnear h'. subst h'.
  rewrite wrapHex_y, wrapHex_x.
  assert (HY : wrapsY P off h = true) by (unfold wrapsY; apply Rltb_true; exact Hbelow).
  rewrite HY. rewrite (generatedRows_eq P (snd size) Hs Hh).
  unfold wrapSpanY, verticalSpacing in *.
  repeat split; try lra.
  intros HX. rewrite HX. reflexivity.
Qed.

Lemma recycle_y_witness :
  - hexHeight defaultProps * 3
    <= y (fst (wrapHex defaultProps (0, 0) (300, 300) sampleFarAbove (fun _ => 0.5))) - 0.
Proof.
  destruct (recycle_y defaultProps (0, 0) (300, 300) sampleFarAbove (fun _ => 0.5))
    as (Hscreen & _).
  - simpl; lra.
  - simpl; lra.
  - unfold hexHeight; simpl; lra.
  - unfold wrapSpanY. cbn [snd].
    rewrite (Zceil_300_verticalSpacing defaultProps eq_refl).
    unfold verticalSpacing, hexHeight; simpl; lra.
  - exact Hscreen.
Defined.

(** ** Hover release and the resting pointer *)

Lemma hoverFrame_released (P : Props) (f : HoverFrame) (h : Hexagon) :
  shouldHover h = true -> released P f ->
  shouldHover (hoverFrame P f h) = true /\
  hoverTarget (hoverFrame P f h) = 0 /\
  hoverOpacity (hoverFrame P f h) = hoverOpacity h * (1 - releaseFactor P f).
Proof.
  intros Hh Hrel. unfold hoverFrame, releaseFactor.
  pose proof (updateHover_eq P (hfMouse f) (hfScreenX f) (hfScreenY f)
                (hfDeltaTime f) h Hh) as (Hs & Ht & Ho).
  unfold released in Hrel. rewrite Hrel in Ht, Ho.
  split; [exact Hs |]. split; [exact Ht |]. rewrite Ho, Ht. ring.
Qed.

Lemma hoverTrace_released (P : Props) (fs : list HoverFrame) :
  forall h : Hexagon,
  shouldHover h = true ->
  0 <= hoverOpacity h ->
  Forall (released P) fs ->
  Forall (fun f => 0 <= releaseFactor P f <= 1) fs ->
  Forall (fun v => 0 <= v <= hoverOpacity h) (hoverTrace P fs h) /\
  StronglySorted Rge (hoverTrace P fs h) /\
  List.last (hoverTrace P fs h) (hoverOpacity h) = hoverOpacity h * remainingFactor P fs.
Proof.
  induction fs as [| f fs IH]; intros h Hh H0 Hrel Hk; cbn [hoverTrace].
  - simpl. repeat split; [constructor | constructor | lra].
  - inversion Hrel as [| ? ? Hf Hfs]; subst.
    inversion Hk as [| ? ? Kf Kfs]; subst.
    destruct (hoverFrame_released P f h Hh Hf) as (Hh' & _ & Ho').
    set (h' := hoverFrame P f h) in *.
    assert (Hstep : 0 <= hoverOpacity h' <= hoverOpacity h) by (rewrite Ho'; nra).
    destruct (IH h' Hh' (proj1 Hstep) Hfs Kfs) as (Hall & Hsorted & Hlast).
    split; [| split].
    + constructor; [lra |].
      eapply Forall_impl; [exact Hall |]. simpl. intros v Hv. lra.
    + constructor; [exact Hsorted |].
      eapply Forall_impl; [exact Hall |]. simpl. intros v Hv. lra.
    + rewrite last_cons, Hlast, Ho'.
      change (remainingFactor P (f :: fs))
        with ((1 - releaseFactor P f) * remainingFactor P fs).
      ring.
Qed.

(** X17.  With the pointer outside a hover-enabled cell on every frame,
    and every frame's release fraction [hoverDelay * deltaTime * 60] between
    0 and 1, a non-negative hover opacity never increases, never drops
    below 0, and after the frames is the initial value times the product of
    the [1 - fraction] of the frames; the hover target is 0. *)
Theorem hover_release_decays (P : Props) (fs : list HoverFrame) (h : Hexagon) :
  shouldHover h = true ->
  0 <= hoverOpacity h ->
  Forall (released P) fs ->
  Forall (fun f => 0 <= releaseFactor P f <= 1) fs ->
  StronglySorted Rge (hoverOpacity h :: hoverTrace P fs h) /\
  Forall (fun v => 0 <= v) (hoverTrace P fs h) /\
  List.last (hoverTrace P fs h) (hoverOpacity h) = hoverOpacity h * remainingFactor P fs /\
  (forall f, released P f -> hoverTarget (hoverFrame P f h) = 0).
Proof.
  intros Hh H0 Hrel Hk.
  destruct (hoverTrace_released P fs h Hh H0 Hrel Hk) as (Hall & Hsorted & Hlast).
  split; [| split; [| split]].
  - constructor; [exact Hsorted |].
    eapply Forall_impl; [exact Hall |]. simpl. intros v Hv. lra.
  - eapply Forall_impl; [exact Hall |]. simpl. intros v Hv. lra.
  - exact Hlast.
  - intros f Hf. apply (hoverFrame_released P f h Hh Hf).
Qed.

Lemma sentinel_outside (P : Props) (size : R * R) (sx sy : R) :
  0 < hexSize P -> 3 * hexSize P < 1000 ->
  offScreen P size sx sy = false ->
  isPointInHexagon (-1000) (-1000) sx sy (hexSize P) = false.
Proof.
  intros Hs Hbig Hon.
  unfold offScreen in Hon. apply orb_false_iff in Hon as [Hon _].
  apply orb_false_iff in Hon as [_ Hy]. apply Rltb_false in Hy.
  unfold hexHeight in Hy.
  unfold isPointInHexagon.
  assert (Hdy : hexSize P < Rabs (-1000 - sy)).
  { rewrite Rabs_left by lra. lra. }
  apply Rgtb_true in Hdy. rewrite Hdy, orb_true_r. reflexivity.
Qed.

Lemma sampleReleasedFrame_released (dt : R) :
  released defaultProps (sampleReleasedFrame dt).
Proof.
  unfold released. simpl. unfold isPointInHexagon.
  assert (Hdy : 30 < Rabs (-1000 - 100)) by (rewrite Rabs_left; lra).
  apply Rgtb_true in Hdy. rewrite Hdy, orb_true_r. reflexivity.
Qed.

Lemma hover_release_decays_witness :
  StronglySorted Rge
    (0.6 :: hoverTrace defaultProps [sampleReleasedFrame (1 / 60); sampleReleasedFrame (1 / 30)]
              sampleFading) /\
  Forall (fun v => 0 <= v)
    (hoverTrace defaultProps [sampleReleasedFrame (1 / 60); sampleReleasedFrame (1 / 30)]
       sampleFading).
Proof.
  destruct (hover_release_decays defaultProps
              [sampleReleasedFrame (1 / 60); sampleReleasedFrame (1 / 30)] sampleFading)
    as (Hsorted & Hpos & _).
  - reflexivity.
  - simpl. lra.
  - repeat constructor; apply sampleReleasedFrame_released.
  - repeat constructor; unfold releaseFactor, hoverSpeed; simpl; lra.
  - split; assumption.
Defined.

(** X18.  While the pointer is where [handleMouseLeave] puts it, which is
    also where it starts, and the cell size is positive and below 1000/3, no
    cell the draw pass processes is hovered: a hover-enabled cell gets
    hover target 0 and its hover opacity shrinks by the fraction
    [hoverDelay * deltaTime * 60]. *)
Theorem resting_pointer_hovers_nothing (P : Props) (e : Engine) (now : R)
    (off size mouse : R * R) (wt dt : R) (h : Hexagon) :
  0 < hexSize P ->
  3 * hexSize P < 1000 ->
  shouldHover h = true ->
  offScreen P size (x h - fst off) (y h - snd off) = false ->
  mouse = mouseRef (handleMouseLeave e) \/ mouse = mouseRef (initialEngine now) ->
  let h' := fst (drawHex P off mouse size wt dt h) in
  hoverTarget h' = 0 /\
  hoverOpacity h' = hoverOpacity h * (1 - hoverDelay P * dt * 60).
Proof.
  intros Hs Hbig Hh Hon Hmouse.
  assert (Hrest : mouse = (-1000, -1000)) by (destruct Hmouse; subst; reflexivity).
  subst mouse.
  cbv zeta. unfold drawHex. rewrite Hon. cbn [fst].
  destruct (updateOscillation_other_fields dt h) as (Hx & Hy & Hh' & _).
  cbv zeta in Hx, Hy, Hh'. rewrite <- Hh' in Hh.
  pose proof (updateHover_eq P (-1000, -1000) (x h - fst off) (y h - snd off) dt
                (updateOscillation dt h) Hh) as (_ & Ht & Ho).
  cbn [fst snd] in Ht, Ho.
  rewrite (sentinel_outside P size _ _ Hs Hbig Hon) in Ht, Ho.
  destruct (updateOscillation_hover_fields dt h) as (_ & Hho & _).
  split; [exact Ht |]. rewrite Ho, Ht, Hho. unfold hoverSpeed. ring.
Qed.

Lemma resting_pointer_hovers_nothing_witness :
  hoverTarget (fst (drawHex defaultProps (0, 0) (-1000, -1000) (300, 300) 0 (1 / 60)
                      sampleFading)) = 0.
Proof.
  destruct (resting_pointer_hovers_nothing defaultProps (initialEngine 0) 0 (0, 0)
              (300, 300) (-1000, -1000) 0 (1 / 60) sampleFading) as [Htarget _].
  - simpl. lra.
  - simpl. lra.
  - reflexivity.
  - pose proof hexWidth_default as Hhw.
    unfold offScreen. rewrite !orb_false_iff. unfold hexHeight.
    repeat split; [apply Rltb_false | apply Rgtb_false | apply Rltb_false | apply Rgtb_false];
      simpl; lra.
  - left. reflexivity.
  - exact Htarget.
Defined.

(** ** The oscillation as a triangle wave *)

(** X19.  For an oscillating cell in the band, with a non-negative rate
    and delta time: going up, the step adds [rate * deltaTime * 60] to the
    opacity and stops at 0.4; going down, it subtracts it and stops at
    0.05; so the opacity never moves by more than [rate * deltaTime * 60]
    in one frame. *)
Theorem oscillation_step (dt : R) (h : Hexagon) :
  shouldOscillate h = true ->
  inBand (opacity h) ->
  0 <= oscillationRate h ->
  0 <= dt ->
  let h' := updateOscillation dt h in
  let move := oscillationRate h * dt * 60 in
  (oscillationDirection h = 1 -> opacity h' = Rmin 0.4 (opacity h + move)) /\
  (oscillationDirection h = -1 -> opacity h' = Rmax 0.05 (opacity h - move)) /\
  (oscillationDirection h = 1 \/ oscillationDirection h = -1 ->
   Rabs (opacity h' - opacity h) <= move).
Proof.
  intros Hosc [Hlo Hhi] Hr Hdt. cbv zeta.
  assert (Hmove : 0 <= oscillationRate h * dt * 60).
  { apply Rmult_le_pos; [apply Rmult_le_pos; assumption | lra]. }
  set (move := oscillationRate h * dt * 60) in *.
  assert (Hup : oscillationDirection h = 1 ->
                opacity (updateOscillation dt h) = Rmin 0.4 (opacity h + move)).
  { intros Hd. unfold updateOscillation. rewrite Hosc. cbn [opacity setOpacity].
    rewrite Hd.
    replace (opacity h + oscillationRate h * 1 * dt * 60) with (opacity h + move)
      by (unfold move; ring).
    unfold Rmin. destruct (Rle_dec 0.4 (opacity h + move)); rcases; simpl; lra. }
  assert (Hdown : oscillationDirection h = -1 ->
                  opacity (updateOscillation dt h) = Rmax 0.05 (opacity h - move)).
  { intros Hd. unfold updateOscillation. rewrite Hosc. cbn [opacity setOpacity].
    rewrite Hd.
    replace (opacity h + oscillationRate h * -1 * dt * 60) with (opacity h - move)
      by (unfold move; ring).
    unfold Rmax. destruct (Rle_dec 0.05 (opacity h - move)); rcases; simpl; lra. }
  split; [exact Hup |]. split; [exact Hdown |].
  intros [Hd | Hd].
  - rewrite (Hup Hd). unfold Rmin.
    destruct (Rle_dec 0.4 (opacity h + move)); apply Rabs_le; lra.
  - rewrite (Hdown Hd). unfold Rmax.
    destruct (Rle_dec 0.05 (opacity h - move)); apply Rabs_le; lra.
Qed.

Lemma oscillation_step_witness :
  opacity (updateOscillation 1 sampleOscillating) = Rmin 0.4 (0.2 + 0.001 * 1 * 60).
Proof.
  destruct (oscillation_step 1 sampleOscillating) as (Hup & _).
  - reflexivity.
  - unfold inBand; simpl; lra.
  - simpl; lra.
  - lra.
  - apply Hup. reflexivity.
Defined.

(** ** The size of the grid for any viewport *)

Lemma Zceil_le_iff (r : R) (z : Z) : (Zceil r <= z)%Z <-> r <= IZR z.
Proof.
  pose proof (Zceil_bound r) as [Hlo Hhi].
  split; intros H.
  - apply IZR_le in H. lra.
  - assert (Hlt : (Zceil r - 1 < z)%Z) by (apply lt_IZR; rewrite minus_IZR; lra). lia.
Qed.

(** X20.  For a positive cell size and any viewport, the grid has
    [max(0, ceil(H / verticalSpacing) + 3) * max(0, ceil(W / hexWidth) + 3)]
    cells; it is empty exactly when [W <= -3 * hexWidth] or
    [H <= -3 * verticalSpacing]; and for a viewport of non-negative width
    and height, 0 x 0 included, it has at least nine cells. *)
Theorem grid_size_any_viewport (P : Props) (W H : R) (g : Rng) :
  0 < hexSize P ->
  let grid := fst (initializeGrid P W H g) in
  Z.of_nat (length grid) =
    (Z.max 0 (Zceil (H / verticalSpacing P) + 3) * Z.max 0 (Zceil (W / hexWidth P) + 3))%Z /\
  (grid = [] <-> W <= - 3 * hexWidth P \/ H <= - 3 * verticalSpacing P) /\
  (0 <= W -> 0 <= H -> (9 <= length grid)%nat).
Proof.
  intros Hs. cbv zeta.
  pose proof (hexWidth_pos P Hs) as Hw.
  assert (Hv : 0 < verticalSpacing P) by (unfold verticalSpacing, hexHeight; lra).
  pose proof (initializeGrid_length P W H g) as Hlen.
  set (c := Zceil (W / hexWidth P)) in *. set (r := Zceil (H / verticalSpacing P)) in *.
  assert (Hc : (c <= -3)%Z <-> W <= - 3 * hexWidth P).
  { unfold c. rewrite Zceil_le_iff. split; intros Hd.
    - apply Rmult_le_compat_r with (r := hexWidth P) in Hd; [| lra].
      unfold Rdiv in Hd. rewrite Rmult_assoc, Rinv_l in Hd by lra. lra.
    - apply Rmult_le_reg_r with (hexWidth P); [exact Hw |].
      unfold Rdiv. rewrite Rmult_assoc, Rinv_l by lra. lra. }
  assert (Hr : (r <= -3)%Z <-> H <= - 3 * verticalSpacing P).
  { unfold r. rewrite Zceil_le_iff. split; intros Hd.
    - apply Rmult_le_compat_r with (r := verticalSpacing P) in Hd; [| lra].
      unfold Rdiv in Hd. rewrite Rmult_assoc, Rinv_l in Hd by lra. lra.
    - apply Rmult_le_reg_r with (verticalSpacing P); [exact Hv |].
      unfold Rdiv. rewrite Rmult_assoc, Rinv_l by lra. lra. }
  split; [| split].
  - rewrite Hlen. lia.
  - rewrite <- Hc, <- Hr. split.
    + intros Hnil. rewrite Hnil in Hlen. simpl in Hlen. nia.
    + intros Hsmall.
      destruct (fst (initializeGrid P W H g)); [reflexivity |]. simpl in Hlen. nia.
  - intros HW HH.
    assert (0 <= c)%Z.
    { apply Zceil_nonneg. apply Rle_mult_inv_pos; assumption. }
    assert (0 <= r)%Z.
    { apply Zceil_nonneg. apply Rle_mult_inv_pos; assumption. }
    rewrite Hlen. nia.
Qed.

Lemma grid_size_any_viewport_witness :
  (9 <= length (fst (initializeGrid defaultProps 0 0 (fun _ => 0.5%R))))%nat.
Proof.
  destruct (grid_size_any_viewport defaultProps 0 0 (fun _ => 0.5)) as (_ & _ & Hnine).
  - simpl. lra.
  - apply Hnine; lra.
Defined.

(** * Properties of the earlier revision *)

Module Part000Facts.

Import Part000.

Lemma earlier_newHexagon_opacity (P : Props) (row col : Z) :
  post unitDraw (newHexagon P row col) opacityOK.
Proof.
  intros g Hg. six_draws Hg.
  unfold newHexagon, opacityOK. rand_eval;
    (split; [| intros n; apply Hg]); (split; [lra | intros Hs; try discriminate; reflexivity]).
Qed.

Lemma earlier_reroll_opacity (P : Props) (h : Hexagon) :
  post unitDraw (reroll P h) opacityOK.
Proof.
  intros g Hg. six_draws Hg.
  unfold reroll, opacityOK. rand_eval;
    (split; [| intros n; apply Hg]); (split; [lra | intros Hs; try discriminate; reflexivity]).
Qed.

Lemma earlier_wrapHex_opacity (P : Props) (off size : R * R) (h : Hexagon) :
  post unitDraw (wrapHex P off size h) (fun h' => opacityOK h -> opacityOK h').
Proof.
  unfold wrapHex. cbv zeta.
  eapply post_bind with (Q1 := fun h1 => opacityOK h -> opacityOK h1).
  - destruct (_ <? _).
    + eapply post_weaken; [apply earlier_reroll_opacity | auto].
    + apply post_ret. auto.
  - intros h1 H1. destruct (_ <? _).
    + eapply post_weaken; [apply earlier_reroll_opacity | auto].
    + apply post_ret. exact H1.
Qed.

Lemma drawHex_opacity (P : Props) (off mouse size : R * R) (dt : R) (h : Hexagon) :
  opacity (fst (drawHex P off mouse size dt h)) = opacity h /\
  hasStaticOpacity (fst (drawHex P off mouse size dt h)) = hasStaticOpacity h.
Proof.
  unfold drawHex. destruct (offScreen P size _ _); cbn [fst]; [auto |].
  unfold updateHover. destruct (shouldHover h); auto.
Qed.

(** X21.  In the earlier revision, for every outcome of the draws, every
    generated cell has an opacity in [0, 0.5), which is 0 unless the cell
    has a static opacity, and a frame keeps it so for every cell: the
    hexagon pass never changes an opacity, and the wrap pass re-rolls it
    within the same range. *)
Theorem opacity_below_half (P : Props) (width height t : R) (e : Engine) (g : Rng) :
  validRng g ->
  Forall opacityOK (fst (initializeGrid P width height g)) /\
  (Forall opacityOK (hexagonsRef e) ->
   Forall opacityOK (hexagonsRef (fst (fst (animate P t e g))))).
Proof.
  intros Hg. split.
  - assert (Hpost : post unitDraw (initializeGrid P width height) (Forall opacityOK)).
    { unfold initializeGrid. cbv zeta. eapply post_bind.
      - apply (post_mapM unitDraw _ (fun _ hs => Forall opacityOK hs)).
        intros row. eapply post_weaken.
        + apply (post_mapM unitDraw (newHexagon P row) (fun _ h => opacityOK h)).
          intros col. apply earlier_newHexagon_opacity.
        + simpl. intros hs HF. eapply Forall2_right; exact HF.
      - simpl. intros rs HF. apply post_ret.
        apply Forall_concat. eapply Forall2_right; exact HF. }
    apply (Hpost g Hg).
  - intros HOK.
    assert (Hpost : post unitDraw (animate P t e)
              (fun r => Forall opacityOK (hexagonsRef (fst r)))).
    { unfold animate. cbv zeta. eapply post_bind.
      - apply post_mapM. intros h. apply earlier_wrapHex_opacity.
      - simpl. intros wrapped HF. apply post_ret. simpl.
        pose proof (Forall2_transport opacityOK _ _ HF HOK) as Hw.
        rewrite map_map. apply Forall_map_intro.
        eapply Forall_impl; [exact Hw |]. simpl. intros h1 [Hr Hs].
        destruct (drawHex_opacity P
                    ((offsetRef e).1 + panSpeed P * ((t - lastTime e) / 1000) * 60,
                     (offsetRef e).2 + panSpeed P * ((t - lastTime e) / 1000) * 60)
                    (mouseRef e) (canvasSize e) ((t - lastTime e) / 1000) h1) as [Ho Hf].
        unfold opacityOK. rewrite Ho, Hf. split; assumption. }
    apply (Hpost g Hg).
Qed.

Lemma opacity_below_half_witness :
  Forall opacityOK (fst (initializeGrid defaultProps 300 300 (fun _ => 0.5))).
Proof.
  destruct (opacity_below_half defaultProps 300 300 16
              (mkEngine [] (0, 0) (-1000, -1000) 0 (300, 300) 0) (fun _ => 0.5))
    as [Hgrid _].
  - intros n. lra.
  - exact Hgrid.
Defined.

(** X22.  In the earlier revision, the star pass draws the stars of a cell
    only when the cell is strictly inside the margin, and the hexagon pass
    skips a cell only when it is strictly outside: every cell that gets
    stars is processed by the hexagon pass, and a cell exactly on the
    margin is processed by the hexagon pass without getting stars. *)
Theorem stars_inside_margin (P : Props) (size : R * R) (sx sy : R) :
  (starsVisible P size sx sy = true <->
   - hexWidth P < sx < fst size + hexWidth P /\
   - hexHeight P < sy < snd size + hexHeight P) /\
  (offScreen P size sx sy = false <->
   - hexWidth P <= sx <= fst size + hexWidth P /\
   - hexHeight P <= sy <= snd size + hexHeight P) /\
  (starsVisible P size sx sy = true -> offScreen P size sx sy = false).
Proof.
  assert (Hstars : starsVisible P size sx sy = true <->
     - hexWidth P < sx < fst size + hexWidth P /\
     - hexHeight P < sy < snd size + hexHeight P).
  { unfold starsVisible. rewrite !andb_true_iff, !Rltb_true, !Rgtb_true. tauto. }
  assert (Hdrawn : offScreen P size sx sy = false <->
     - hexWidth P <= sx <= fst size + hexWidth P /\
     - hexHeight P <= sy <= snd size + hexHeight P).
  { unfold offScreen. rewrite !orb_false_iff, !Rltb_false, !Rgtb_false. tauto. }
  split; [exact Hstars |]. split; [exact Hdrawn |].
  rewrite Hstars, Hdrawn. lra.
Qed.

Lemma stars_inside_margin_witness :
  starsVisible defaultProps (300, 300) 10 10 = true /\
  offScreen defaultProps (300, 300) 10 10 = false.
Proof.
  pose proof hexWidth_default as Hhw.
  destruct (stars_inside_margin defaultProps (300, 300) 10 10) as (Hstars & _ & Himp).
  assert (Hv : starsVisible defaultProps (300, 300) 10 10 = true).
  { apply Hstars. unfold hexHeight. simpl. lra. }
  split; [exact Hv | apply Himp, Hv].
Defined.




End Part000Facts.

Lemma hover_hold_converges_witness :
  Un_cv (fun n => List.last (hoverTrace defaultProps
                               (List.repeat (sampleHeldFrame (1 / 60)) n) sampleHover) 0)
        0.8.
Proof.
  apply (hover_hold_converges defaultProps (sampleHeldFrame (1 / 60)) sampleHover).
  - reflexivity.
  - reflexivity.
  - apply sampleHeldFrame_held.
  - unfold easeFactor, hoverSpeed. simpl. lra.
Defined.
